(** * TediCross, Telegram to Discord: a shallow embedding of
      [src/lib/telegram2discord/setup.js] and of the two versions of
      [updategetter.js] that follow it in the same file.

    Asynchronous handlers are embedded in a small monad [M] that threads the
    message map, records every call made to a collaborator (Telegram,
    Discord, the loggers) and ends in one of three ways: the promise
    resolves, it rejects, or it stays pending for ever.  The collaborators
    themselves are opaque: the records [TgBot] and [DcBot] give the answer
    of each of their methods.  What is called but is not in these files,
    [messageConverter], [mime.getExtension], [handleUpdates] and the
    engine's [String.prototype.toLowerCase], is a parameter of the
    embedding. *)

From Stdlib Require Import ZArith String Ascii.
From Stdlib.Strings Require Import Byte.
From Stdlib Require Import Sorted.
From stdpp Require Import base gmap strings pretty list.

Open Scope Z_scope.

(** ** JavaScript strings *)

Module Js.

(** [s.split(".")]: the pieces between the dots, never an empty array. *)
Fixpoint split_dot (s : string) : list string :=
  match s with
  | EmptyString => [EmptyString]
  | String c s' =>
      let pieces := split_dot s' in
      if Ascii.eqb c "."%char then EmptyString :: pieces
      else match pieces with
           | piece :: others => String c piece :: others
           | [] => [String c EmptyString]
           end
  end.

(** [array.pop()] as the source uses it: only the popped value is kept. *)
Definition pop (pieces : list string) : option string := last pieces.

(** String coercion of a possibly [undefined] operand of [+]. *)
Definition str (v : option string) : string := default "undefined" v.

(** String coercion of a possibly [null] operand of [+]. *)
Definition str_null (v : option string) : string := default "null" v.

Definition newline : string := String (ascii_of_nat 10) EmptyString.

End Js.

(** ** Telegram objects.  An optional field is an [option]; [None] is
       JavaScript's [undefined]. *)

Record Chat := { chat_id : Z }.
Record User := { user_id : Z; username : string }.
Record PhotoSize := { photo_file_id : string }.
Record Document := { document_file_id : string; file_name : option string }.
Record Voice := { voice_file_id : string; voice_mime_type : option string }.
Record Audio := { audio_file_id : string; title : option string }.
Record Video := { video_file_id : string; video_mime_type : option string }.
Record Sticker := { thumb : option PhotoSize; emoji : option string }.

Record Message := {
  message_id : Z;
  chat : Chat;
  text : option string;
  photo : option (list PhotoSize);
  document : option Document;
  voice : option Voice;
  audio : option Audio;
  video : option Video;
  sticker : option Sticker;
  caption : option string
}.

Record Update := {
  update_id : Z;
  message : option Message;
  channel_post : option Message;
  edited_message : option Message
}.

(** What [tgBot.getFile] resolves to, and the stream of its content: the
    chunks of the ["data"] events in order, and whether ["end"] follows. *)
Record File := { file_path : option string }.
Record FileStream := { chunks : list (list byte); ends : bool }.

(** ** Discord objects *)

Definition DcId := Z.
Record DcMessage := { dc_id : DcId }.
Record Attachment := { attachment : list byte; attachment_name : string }.

(** What [messageConverter] returns. *)
Record MessageObj := { from : string; composed : string }.

(** ** Errors, outcomes and the record of calls *)

Record Err := { err_name : string; err_message : string; err_stack : string }.

Definition TypeError (what : string) : Err :=
  {| err_name := "TypeError"; err_message := what; err_stack := what |}.

(** How a promise ends. *)
Inductive Outcome (A : Type) : Type :=
| Resolved (a : A)
| Rejected (e : Err)
| Pending.
Arguments Resolved {A} a.
Arguments Rejected {A} e.
Arguments Pending {A}.

(** How a synchronous call ends: it returns a value, or it throws. *)
Inductive Completion (A : Type) : Type :=
| Returned (a : A)
| Thrown (e : Err).
Arguments Returned {A} a.
Arguments Thrown {A} e.

Inductive LogArg :=
| ArgErr (e : Err)
| ArgText (t : option string).

Inductive Call :=
| TgSendMessage (to : Z) (body : string) (parse_mode : option string)
| TgGetFile (file_id : string)
| TgHelperGetFileStream (file : File)
| DcSend (channel : string) (body : string) (file : option Attachment)
| DcFetchMessage (channel : string) (id : option DcId)
| DcEdit (target : DcMessage) (body : string)
| LoggerError (line : string) (arg : LogArg)
| ConsoleError (line : string) (e : Err) (about : Message).

(** The calls that reach the destination platform. *)
Definition is_destination_call (c : Call) : bool :=
  match c with
  | DcSend _ _ _ | DcFetchMessage _ _ | DcEdit _ _ => true
  | _ => false
  end.

(** ** The collaborators *)

Record TgBot := {
  me : option User;
  getFile : string → Outcome File;
  helperGetFileStream : File → Outcome FileStream;
  (** [sendMessage] is never awaited: all the caller can observe is a
      synchronous throw. *)
  sendMessage : Z → string → option string → option Err
}.

Record DcBot := {
  ready : Outcome unit;
  (** ids of the channels [dcBot.channels.get] finds *)
  channels : list string;
  channel_send : string → string → option Attachment → Outcome DcMessage;
  channel_fetchMessage : string → option DcId → Outcome DcMessage;
  message_edit : DcMessage → string → Outcome unit
}.

Record Settings := {
  debug : bool;
  sendEmojiWithStickers : bool;
  skipOldMessages : bool
}.

Record Bridge := { name : string; discord_channel : string }.

(** Modelled from the spec: [Application.bridgeMap] ([../Application] is not
    among the sources), the table from a source chat id to its bridge;
    [has("telegram", id)] holds when [getBridge("telegram", id)] finds one. *)
Record Application := {
  settings : Settings;
  bridgeMap : gmap Z Bridge
}.

(** ** MessageMap *)

(** The one direction the sources name: [MessageMap.TELEGRAM_TO_DISCORD]. *)
Inductive Direction := TELEGRAM_TO_DISCORD.

Global Instance Direction_eq_dec : EqDecision Direction.
Proof. solve_decision. Defined.

Global Instance Direction_countable : Countable Direction.
Proof.
  refine (inj_countable' (λ _ : Direction, tt) (λ _ : unit, TELEGRAM_TO_DISCORD) _).
  intros []; reflexivity.
Defined.

Module MessageMap.

(** Modelled from the spec: the class [MessageMap] ([../MessageMap] is not
    among the sources).  [insert(direction, sourceId, destId)] records the
    mapping, overwriting an earlier one; [lookup(direction, sourceId)] is
    a pure read that gives the destination id or not-found. *)
Definition insert (direction : Direction) (fromId : Z) (toId : DcId)
    (map : gmap (Direction * Z) DcId) : gmap (Direction * Z) DcId :=
  <[ (direction, fromId) := toId ]> map.

Definition getCorresponding (direction : Direction) (fromId : Z)
    (map : gmap (Direction * Z) DcId) : option DcId :=
  map !! (direction, fromId).

End MessageMap.

(** ** The monad of asynchronous handlers *)

Definition M (A : Type) : Type :=
  gmap (Direction * Z) DcId → Outcome A * gmap (Direction * Z) DcId * list Call.

Definition ret {A} (a : A) : M A := λ map, (Resolved a, map, []).

Definition throw {A} (e : Err) : M A := λ map, (Rejected e, map, []).

Definition never {A} : M A := λ map, (Pending, map, []).

Definition bind {A B} (m : M A) (k : A → M B) : M B :=
  λ map,
    let '(o, map1, calls1) := m map in
    match o with
    | Resolved a =>
        let '(o2, map2, calls2) := k a map1 in (o2, map2, calls1 ++ calls2)
    | Rejected e => (Rejected e, map1, calls1)
    | Pending => (Pending, map1, calls1)
    end.

Notation "'let*' x ':=' m 'in' k" := (bind m (λ x, k))
  (at level 10, x name, m at level 100, k at level 200, only parsing).
Notation "'let*' '_' ':=' m 'in' k" := (bind m (λ _, k))
  (at level 10, m at level 100, k at level 200, only parsing).

(** [try { body } catch (err) { handler }]: only a rejection is caught. *)
Definition try_catch {A} (body : M A) (handler : Err → M A) : M A :=
  λ map,
    let '(o, map1, calls1) := body map in
    match o with
    | Rejected e =>
        let '(o2, map2, calls2) := handler e map1 in (o2, map2, calls1 ++ calls2)
    | _ => (o, map1, calls1)
    end.

(** [await promise] *)
Definition await {A} (promise : Outcome A) : M A := λ map, (promise, map, []).

(** A call to a collaborator, recorded, and its awaited answer. *)
Definition call {A} (c : Call) (answer : Outcome A) : M A :=
  λ map, (answer, map, [c]).

(** A promise that nobody awaits: its calls happen, its outcome is lost. *)
Definition not_awaited {A} (m : M A) : M unit :=
  λ map, let '(_, map1, calls1) := m map in (Resolved tt, map1, calls1).

Definition map_of {A} (r : Outcome A * gmap (Direction * Z) DcId * list Call)
  : gmap (Direction * Z) DcId := r.1.2.
Definition calls_of {A} (r : Outcome A * gmap (Direction * Z) DcId * list Call)
  : list Call := r.2.

(** Reading a property of [undefined] throws a [TypeError]. *)
Definition field {A} (what : string) (v : option A) : M A :=
  match v with
  | Some a => ret a
  | None => throw (TypeError what)
  end.

(** A synchronous call made inside an async function: its value, or the
    rejection of the function with what the call throws. *)
Definition invoke {A} (c : Completion A) : M A :=
  match c with
  | Returned a => ret a
  | Thrown e => throw e
  end.

Definition logger_error (line : string) (arg : LogArg) : M unit :=
  call (LoggerError line arg) (Resolved tt).

(** [messageMap.insert(direction, fromId, toId)] *)
Definition messageMap_insert (direction : Direction) (fromId : Z) (toId : DcId)
  : M unit :=
  λ map, (Resolved tt, MessageMap.insert direction fromId toId map, []).

(** [messageMap.getCorresponding(direction, fromId)] *)
Definition messageMap_getCorresponding (direction : Direction) (fromId : Z)
  : M (option DcId) :=
  λ map, (Resolved (MessageMap.getCorresponding direction fromId map), map, []).

(** ** setup.js *)

Module SendFile.
(** The argument object of the file sender; [None] is an omitted or
    [undefined] property. *)
Record Args := {
  discordChannel : string;
  message : Message;
  fileId : string;
  fileName : option string;
  caption : option string;
  resolveExtension : option bool
}.
End SendFile.

Definition NOTICE : string :=
  "This is an instance of a [TediCross](https://github.com/Suppen/TediCross) bot, "
  +:+ "bridging a chat in Telegram with one in Discord. "
  +:+ "If you wish to use TediCross yourself, please download and create an instance. "
  +:+ "Join our [Telegram group](https://t.me/TediCrossSupport) or [Discord server](https://discord.gg/MfzGMzy) for help".

Section Setup.

Variable app : Application.
Variable tgBot : TgBot.
Variable dcBot : DcBot.
(** [messageConverter({ message, dcUsers, tgBot })], not among the sources:
    the object it returns, or the error it throws *)
Variable messageConverter : Message → Completion MessageObj.
(** [mime.getExtension], of the library [mime/lite]; [None] is [null] *)
Variable mime_getExtension : option string → option string.
(** [String.prototype.toLowerCase], of the engine: the case mapping of
    Unicode, of which nothing is assumed here *)
Variable toLowerCase : string → string.

(** [dcBot.channels.get(id)], followed by a method call on what it gives *)
Definition channels_get (id : string) : M string :=
  if bool_decide (id ∈ channels dcBot) then ret id
  else throw (TypeError "Cannot read property of undefined").

Definition tgBot_sendMessage (to : Z) (body : string) (parse_mode : option string)
  : M unit :=
  call (TgSendMessage to body parse_mode)
       (match sendMessage tgBot to body parse_mode with
        | Some err => Rejected err
        | None => Resolved tt
        end).

(** The text sent along with a file, from what the converter returned. *)
Definition textToSend (messageObj : MessageObj) (args : SendFile.Args) : string :=
  let caption := default "" (SendFile.caption args) in
  "**" +:+ from messageObj +:+ "**:" +:+ Js.newline +:+ caption.

(** The function [makeFileSender] returns. *)
Definition makeFileSender (args : SendFile.Args) : M DcMessage :=
  let resolveExtension := default false (SendFile.resolveExtension args) in
  let* messageObj := invoke (messageConverter (SendFile.message args)) in
  let textToSend := textToSend messageObj args in
  let* _ := await (ready dcBot) in
  let* file := call (TgGetFile (SendFile.fileId args))
                    (getFile tgBot (SendFile.fileId args)) in
  let* extension :=
    (if resolveExtension
     then let* path := field "file_path" (file_path file) in
          ret ("." +:+ Js.str (Js.pop (Js.split_dot path)))
     else ret "") in
  let* fileStream := call (TgHelperGetFileStream file)
                          (helperGetFileStream tgBot file) in
  (* the "data" listener *)
  let buffers :=
    fold_left (λ buffers chunk, buffers ++ [chunk]) (chunks fileStream) [] in
  (* the "end" listener; without "end" the promise is never resolved, and
     if the listener throws, neither *)
  if ends fileStream then
    if bool_decide (SendFile.discordChannel args ∈ channels dcBot) then
      let file := {| attachment := concat buffers;
                     attachment_name :=
                       Js.str (SendFile.fileName args) +:+ extension |} in
      call (DcSend (SendFile.discordChannel args) textToSend (Some file))
           (channel_send dcBot (SendFile.discordChannel args)
                         textToSend (Some file))
    else never
  else never.

Definition sendFile := makeFileSender.

(** The test of the chat-info request. *)
Definition is_chatinfo (msg : Message) : bool :=
  match text msg, me tgBot with
  | Some t, Some bot =>
      String.eqb (toLowerCase t)
                 (toLowerCase ("@" +:+ username bot +:+ " chatinfo"))
  | _, _ => false
  end.

Definition createMessageHandler (func : Message → Bridge → M unit)
    (msg : Message) : M unit :=
  if is_chatinfo msg then
    tgBot_sendMessage (chat_id (chat msg))
                      ("chatID: " +:+ pretty (chat_id (chat msg))) None
  else
    (* [!bridgeMap.has(..)], else [bridgeMap.getBridge(..)] *)
    match bridgeMap app !! chat_id (chat msg) with
    | None =>
        try_catch
          (tgBot_sendMessage (chat_id (chat msg)) NOTICE (Some "markdown"))
          (λ err,
             call (ConsoleError
                     "Could not tell user to get their own TediCross instance:"
                     err msg)
                  (Resolved tt))
    | Some bridge => not_awaited (func msg bridge)
    end.

Definition wrapFunction := createMessageHandler.

Definition tag (bridge : Bridge) (rest : string) : string :=
  "[" +:+ name bridge +:+ "]" +:+ rest.

Definition text_handler (msg : Message) (bridge : Bridge) : M unit :=
  let* messageObj := invoke (messageConverter msg) in
  try_catch
    (let* _ := await (ready dcBot) in
     let* channel := channels_get (discord_channel bridge) in
     let* dcMessage :=
       call (DcSend channel (composed messageObj) None)
            (channel_send dcBot channel (composed messageObj) None) in
     messageMap_insert TELEGRAM_TO_DISCORD (message_id msg) (dc_id dcMessage))
    (λ err,
       let* _ := logger_error (tag bridge " Discord did not accept a text message:")
                              (ArgErr err) in
       logger_error (tag bridge " Failed message:") (ArgText (text msg))).

Definition photo_args (msg : Message) (bridge : Bridge) : M SendFile.Args :=
  let* sizes := field "length" (photo msg) in
  let* largest := field "file_id" (last sizes) in
  ret {| SendFile.discordChannel := discord_channel bridge;
         SendFile.message := msg;
         SendFile.fileId := photo_file_id largest;
         SendFile.fileName := Some "photo.jpg";
         SendFile.caption := caption msg;
         SendFile.resolveExtension := None |}.

Definition sticker_args (msg : Message) (bridge : Bridge) : M SendFile.Args :=
  let* st := field "thumb" (sticker msg) in
  let* th := field "file_id" (thumb st) in
  ret {| SendFile.discordChannel := discord_channel bridge;
         SendFile.message := msg;
         SendFile.fileId := photo_file_id th;
         SendFile.fileName := Some "sticker.webp";
         SendFile.caption :=
           if sendEmojiWithStickers (settings app) then emoji st else None;
         SendFile.resolveExtension := None |}.

Definition document_args (msg : Message) (bridge : Bridge) : M SendFile.Args :=
  let* doc := field "file_id" (document msg) in
  ret {| SendFile.discordChannel := discord_channel bridge;
         SendFile.message := msg;
         SendFile.fileId := document_file_id doc;
         SendFile.fileName := file_name doc;
         SendFile.caption := None;
         SendFile.resolveExtension := Some false |}.

Definition voice_args (msg : Message) (bridge : Bridge) : M SendFile.Args :=
  let* v := field "file_id" (voice msg) in
  ret {| SendFile.discordChannel := discord_channel bridge;
         SendFile.message := msg;
         SendFile.fileId := voice_file_id v;
         SendFile.fileName :=
           Some ("voice" +:+ "."
                 +:+ Js.str_null (mime_getExtension (voice_mime_type v)));
         SendFile.caption := None;
         SendFile.resolveExtension := Some false |}.

Definition audio_args (msg : Message) (bridge : Bridge) : M SendFile.Args :=
  let* a := field "file_id" (audio msg) in
  ret {| SendFile.discordChannel := discord_channel bridge;
         SendFile.message := msg;
         SendFile.fileId := audio_file_id a;
         SendFile.fileName := title a;
         SendFile.caption := None;
         SendFile.resolveExtension := Some true |}.

Definition video_args (msg : Message) (bridge : Bridge) : M SendFile.Args :=
  let* v := field "file_id" (video msg) in
  ret {| SendFile.discordChannel := discord_channel bridge;
         SendFile.message := msg;
         SendFile.fileId := video_file_id v;
         SendFile.fileName :=
           Some ("video" +:+ "."
                 +:+ Js.str_null (mime_getExtension (video_mime_type v)));
         SendFile.caption := None;
         SendFile.resolveExtension := Some false |}.

(** The shape the six file handlers share:
    [try { await sendFile({...}) } catch (err) { logger.error(...) }]. *)
Definition file_handler (args : Message → Bridge → M SendFile.Args)
    (failure : string) (msg : Message) (bridge : Bridge) : M unit :=
  try_catch
    (let* job := args msg bridge in
     let* _ := sendFile job in
     ret tt)
    (λ err, logger_error (tag bridge failure) (ArgErr err)).

Definition photo_handler := file_handler photo_args " Could not send photo".
Definition sticker_handler := file_handler sticker_args " Could not send sticker".
Definition document_handler := file_handler document_args " Could not send document".
Definition voice_handler := file_handler voice_args " Could not send voice".
Definition audio_handler := file_handler audio_args " Could not send audio".
Definition video_handler := file_handler video_args " Could not send video".

Definition messageEdit_handler (tgMessage : Message) (bridge : Bridge) : M unit :=
  try_catch
    (let* _ := await (ready dcBot) in
     let* dcMessageId :=
       messageMap_getCorresponding TELEGRAM_TO_DISCORD (message_id tgMessage) in
     let* channel := channels_get (discord_channel bridge) in
     let* dcMessage :=
       call (DcFetchMessage channel dcMessageId)
            (channel_fetchMessage dcBot channel dcMessageId) in
     let* messageObj := invoke (messageConverter tgMessage) in
     call (DcEdit dcMessage (composed messageObj))
          (message_edit dcBot dcMessage (composed messageObj)))
    (λ err, logger_error (tag bridge " Could not edit Discord message:")
                         (ArgErr err)).

(** The listeners [setup] registers with [tgBot.on], in the order of the
    source. *)
Definition setup : list (string * (Message → M unit)) :=
  [ ("text", wrapFunction text_handler);
    ("photo", wrapFunction photo_handler);
    ("sticker", wrapFunction sticker_handler);
    ("document", wrapFunction document_handler);
    ("voice", wrapFunction voice_handler);
    ("audio", wrapFunction audio_handler);
    ("video", wrapFunction video_handler);
    ("messageEdit", wrapFunction messageEdit_handler) ].

(** The listeners of one event. *)
Definition listeners (event : string) : list (Message → M unit) :=
  (filter (λ registration, registration.1 = event) setup).*2.

End Setup.

(** ** updategetter.js *)

Definition DEFAULT_TIMEOUT : Z := 60.

(** What one call of [bot.getUpdates] resolves to, or rejects with. *)
Inductive FetchResult :=
| Fetched (updates : list Update)
| FetchFailed (err : Err).

(** What the poller does that can be observed from outside. *)
Inductive PollCall :=
| GetUpdates (offset : Z) (timeout : Z)
| Emit (event : string) (msg : Message)
| LoggerLog (line : string)
| LoggerErrorFetch (line : string) (detail : string).

(** [clearInitialUpdates(bot, offset)].  [getUpdates n] is the answer of the
    source to the [n]-th call made to it; [fuel] bounds the depth of the
    recursion, and [None] means the bound was reached. *)
Fixpoint clearInitialUpdates (fuel : nat) (getUpdates : nat → FetchResult)
    (n : nat) (offset : Z) : option (Outcome Z) :=
  match fuel with
  | O => None
  | S fuel' =>
      match getUpdates n with
      | FetchFailed err => Some (Rejected err)
      | Fetched updates =>
          let newestOffset := offset in
          match last updates with
          | Some newest =>
              let newOffset := update_id newest + 1 in
              clearInitialUpdates fuel' getUpdates (S n) newOffset
          | None => Some (Resolved newestOffset)
          end
      end
  end.

(** [x !== undefined] *)
Definition defined {A} (x : option A) : bool :=
  match x with
  | Some _ => true
  | None => false
  end.

(** First version: the body of [updates.forEach], after the assignment to
    [offset]. *)
Definition emit_update (update : Update) : list PollCall :=
  if (defined (message update) || defined (channel_post update))%bool then
    match (match message update with
           | Some m => Some m
           | None => channel_post update
           end) with
    | Some msg =>
        if defined (text msg) then [Emit "text" msg]
        else if defined (photo msg) then [Emit "photo" msg]
        else if defined (document msg) then [Emit "document" msg]
        else if defined (voice msg) then [Emit "voice" msg]
        else if defined (audio msg) then [Emit "audio" msg]
        else if defined (voice msg) then [Emit "voice" msg]
        else if defined (video msg) then [Emit "video" msg]
        else if defined (sticker msg) then [Emit "sticker" msg]
        else []
    | None => []
    end
  else
    match edited_message update with
    | Some msg => [Emit "messageEdit" msg]
    | None => []
    end.

(** [updates.forEach(...)]: the offset and the events after the batch. *)
Definition forEach_update (updates : list Update) (offset : Z)
  : Z * list PollCall :=
  fold_left (λ acc update, (update_id update + 1, acc.2 ++ emit_update update))
            updates (offset, []).

(** The [catch] of both versions.  The template string concatenated with
    the debug flag is the condition of [?:], and it is never empty, so the
    stack is what gets logged. *)
Definition log_fetch_error (err : Err) : PollCall :=
  LoggerErrorFetch "Couldn't fetch Telegram messages. Reason:" (err_stack err).

(** One round of [fetchUpdates], first version, on the answer [result] to
    its [getUpdates]: the new offset and what was done. *)
Definition fetchUpdates_round (app : Application) (offset : Z)
    (result : FetchResult) : Z * list PollCall :=
  let announce :=
    if debug (settings app) then [LoggerLog "Fetching Telegram updates"] else [] in
  let request := GetUpdates offset DEFAULT_TIMEOUT in
  match result with
  | Fetched updates =>
      let '(offset', events) := forEach_update updates offset in
      (offset', announce ++ request :: events)
  | FetchFailed err =>
      (offset, announce ++ [request; log_fetch_error err])
  end.

(** [fetchUpdates] calls itself for ever; here it runs for as long as the
    scripted answers last. *)
Fixpoint fetchUpdates (app : Application) (results : list FetchResult)
    (offset : Z) : Z * list PollCall :=
  match results with
  | [] => (offset, [])
  | result :: later =>
      let '(offset', calls) := fetchUpdates_round app offset result in
      let '(final, calls') := fetchUpdates app later offset' in
      (final, calls ++ calls')
  end.

(** Second version.  [handleUpdates] ([./handleUpdates] is not among the
    sources) is given the batch and the emitter, and nothing else: it
    returns a number or throws, after the events it has emitted.  It is
    called inside the [try], so that what it throws is logged like a fetch
    that failed, and the offset is then not assigned. *)
Definition fetchUpdates2_round
    (handleUpdates : list Update → Completion Z * list (string * Message))
    (app : Application) (offset : Z) (result : FetchResult)
  : Z * list PollCall :=
  let announce :=
    if debug (settings app) then [LoggerLog "Fetching Telegram updates"] else [] in
  let request := GetUpdates offset DEFAULT_TIMEOUT in
  match result with
  | Fetched updates =>
      let '(answer, emitted) := handleUpdates updates in
      let events := (λ e, Emit e.1 e.2) <$> emitted in
      match answer with
      | Returned newest => (newest + 1, announce ++ request :: events)
      | Thrown err =>
          (offset, announce ++ request :: events ++ [log_fetch_error err])
      end
  | FetchFailed err =>
      (offset, announce ++ [request; log_fetch_error err])
  end.

Fixpoint fetchUpdates2
    (handleUpdates : list Update → Completion Z * list (string * Message))
    (app : Application) (results : list FetchResult) (offset : Z)
  : Z * list PollCall :=
  match results with
  | [] => (offset, [])
  | result :: later =>
      let '(offset', calls) := fetchUpdates2_round handleUpdates app offset result in
      let '(final, calls') := fetchUpdates2 handleUpdates app later offset' in
      (final, calls ++ calls')
  end.

(** The offsets the source was asked with, in order. *)
Definition requested (calls : list PollCall) : list Z :=
  omap (λ c, match c with
             | GetUpdates offset _ => Some offset
             | _ => None
             end) calls.

(** ** Vocabulary of the specification *)

(** The ids of a batch grow strictly. *)
Fixpoint strictly_increasing (updates : list Update) : bool :=
  match updates with
  | [] => true
  | update :: later =>
      match later with
      | [] => true
      | next :: _ => (update_id update <? update_id next) && strictly_increasing later
      end
  end.

(** The largest id of a batch. *)
Fixpoint max_update_id (updates : list Update) : option Z :=
  match updates with
  | [] => None
  | update :: later =>
      match max_update_id later with
      | Some m => Some (Z.max (update_id update) m)
      | None => Some (update_id update)
      end
  end.

(** The source answers a request made at [offset] with updates that are not
    older than [offset], in strictly increasing order of id. *)
Definition answers_from (offset : Z) (updates : list Update) : bool :=
  strictly_increasing updates
  && forallb (λ update, offset <=? update_id update) updates.

(** The source does so in every round of a run that starts at [offset]. *)
Fixpoint source_in_order (results : list FetchResult) (offset : Z) : bool :=
  match results with
  | [] => true
  | Fetched updates :: later =>
      answers_from offset updates
      && source_in_order later (forEach_update updates offset).1
  | FetchFailed _ :: later => source_in_order later offset
  end.

(** The payload fields of the routing contract, in its priority order:
    text, photo, document, voice, audio, video, sticker, edited-message.
    The first seven are fields of the message the update carries (its
    message or else its channel post). *)
Definition recognized (update : Update) : list (string * Message) :=
  let carried :=
    match message update with
    | Some m => Some m
    | None => channel_post update
    end in
  match carried with
  | Some msg =>
      (if defined (text msg) then [("text", msg)] else [])
      ++ (if defined (photo msg) then [("photo", msg)] else [])
      ++ (if defined (document msg) then [("document", msg)] else [])
      ++ (if defined (voice msg) then [("voice", msg)] else [])
      ++ (if defined (audio msg) then [("audio", msg)] else [])
      ++ (if defined (video msg) then [("video", msg)] else [])
      ++ (if defined (sticker msg) then [("sticker", msg)] else [])
  | None => []
  end
  ++ match edited_message update with
     | Some msg => [("messageEdit", msg)]
     | None => []
     end.

(** The first matching field wins; no field, no event. *)
Definition first_match (update : Update) : list PollCall :=
  match recognized update with
  | (event, msg) :: _ => [Emit event msg]
  | [] => []
  end.

(** The update carries a message or a channel post with none of the seven
    fields, and an edited message besides. *)
Definition edit_behind_message (update : Update) : bool :=
  (defined (message update) || defined (channel_post update))
  && defined (edited_message update)
  && match recognized update with
     | ("messageEdit", _) :: _ => true
     | _ => false
     end.

(** The ids of the updates the first [n] answers delivered, in order. *)
Fixpoint seen (getUpdates : nat → FetchResult) (n : nat) : list Z :=
  match n with
  | O => []
  | S k =>
      seen getUpdates k
      ++ match getUpdates k with
         | Fetched updates => update_id <$> updates
         | FetchFailed _ => []
         end
  end.

(** The ids of a list grow strictly. *)
Fixpoint ascending (ids : list Z) : bool :=
  match ids with
  | [] => true
  | id :: later =>
      match later with
      | [] => true
      | next :: _ => (id <? next) && ascending later
      end
  end.

(** The id that ends the batch of an answer. *)
Definition final_update_id (result : FetchResult) : option Z :=
  match result with
  | Fetched updates => update_id <$> last updates
  | FetchFailed _ => None
  end.

Definition is_tg_send (c : Call) : bool :=
  match c with
  | TgSendMessage _ _ _ => true
  | _ => false
  end.

(** What the wrapper does for a chat without a bridge: one notice to the chat,
    and word on the console if sending it throws. *)
Definition notice_calls (tgBot : TgBot) (msg : Message) : list Call :=
  TgSendMessage (chat_id (chat msg)) NOTICE (Some "markdown")
  :: match sendMessage tgBot (chat_id (chat msg)) NOTICE (Some "markdown") with
     | Some err =>
         [ConsoleError "Could not tell user to get their own TediCross instance:"
                       err msg]
     | None => []
     end.

(** The caption of the job the sticker handler builds, if it builds one. *)
Definition sticker_caption (app : Application) (msg : Message)
    (bridge : Bridge) : option string :=
  match sticker_args app msg bridge ∅ with
  | (Resolved job, _, _) => SendFile.caption job
  | _ => None
  end.

(** The cursor before each round of a run, and after the last. *)
Fixpoint cursors (results : list FetchResult) (offset : Z) : list Z :=
  match results with
  | [] => [offset]
  | Fetched updates :: later =>
      offset :: cursors later (forEach_update updates offset).1
  | FetchFailed _ :: later => offset :: cursors later offset
  end.

(** No fetch of the run comes back with an empty batch. *)
Definition no_empty_batch (results : list FetchResult) : bool :=
  forallb (λ result, match result with
                     | Fetched [] => false
                     | _ => true
                     end) results.

(** What the second version needs of [handleUpdates] to move the offset as
    the first does: for a batch in strictly increasing order it returns the
    largest id. *)
Definition returns_largest_id
    (handleUpdates : list Update → Completion Z * list (string * Message))
  : Prop :=
  ∀ updates largest,
    strictly_increasing updates = true →
    max_update_id updates = Some largest →
    (handleUpdates updates).1 = Returned largest.

(** Answers that are batches with a last update. *)
Definition nonempty_batch (getUpdates : nat → FetchResult) (n : nat) : Prop :=
  ∃ updates newest, getUpdates n = Fetched updates ∧ last updates = Some newest.

(** The offset backlog clearing ends with when the [n]-th answer after
    [start] is the first empty one. *)
Definition cleared_offset (getUpdates : nat → FetchResult) (start n : nat)
    (offset : Z) : Z :=
  match n with
  | O => offset
  | S k =>
      match final_update_id (getUpdates (start + k)%nat) with
      | Some final => final + 1
      | None => offset
      end
  end.


(** ** Sample values *)

Module Sample.

Definition msg (id : Z) (from_chat : Z) : Message :=
  {| message_id := id; chat := {| chat_id := from_chat |};
     text := None; photo := None; document := None; voice := None;
     audio := None; video := None; sticker := None; caption := None |}.

Definition text_msg (id from_chat : Z) (body : string) : Message :=
  {| message_id := id; chat := {| chat_id := from_chat |};
     text := Some body; photo := None; document := None; voice := None;
     audio := None; video := None; sticker := None; caption := None |}.

Definition sticker_msg (id from_chat : Z) (st : Sticker) : Message :=
  {| message_id := id; chat := {| chat_id := from_chat |};
     text := None; photo := None; document := None; voice := None;
     audio := None; video := None; sticker := Some st; caption := None |}.

Definition update (id : Z) : Update :=
  {| update_id := id; message := Some (text_msg id 7 "hello");
     channel_post := None; edited_message := None |}.

(** What a converter that takes every message to be from alice makes of
    a message. *)
Definition converted (m : Message) : MessageObj :=
  {| from := "alice";
     composed := "**alice**: " +:+ default "" (text m) |}.

Definition converter (m : Message) : Completion MessageObj :=
  Returned (converted m).

(** A converter that throws on every message. *)
Definition broken_converter (m : Message) : Completion MessageObj :=
  Thrown (TypeError "Cannot read property 'first_name' of undefined").

(** The lowering of the letters A to Z.  It is what [toLowerCase] does to
    a string of ASCII characters, as the texts of the samples are, and is
    not meant for any other string. *)
Definition lower_ascii (c : ascii) : ascii :=
  let n := nat_of_ascii c in
  if (Nat.leb 65 n && Nat.leb n 90)%bool then ascii_of_nat (n + 32) else c.

Fixpoint ascii_toLowerCase (s : string) : string :=
  match s with
  | EmptyString => EmptyString
  | String c s' => String (lower_ascii c) (ascii_toLowerCase s')
  end.

Definition bridge : Bridge := {| name := "b"; discord_channel := "chan" |}.

(** The bot, as [getMe] gives it. *)
Definition bot : User := {| user_id := 1; username := "bot" |}.

Definition app (flag : bool) : Application :=
  {| settings := {| debug := false; sendEmojiWithStickers := flag;
                    skipOldMessages := true |};
     bridgeMap := {[ 7 := bridge ]} |}.

Definition boom : Err :=
  {| err_name := "DiscordAPIError"; err_message := "Unknown Message";
     err_stack := "DiscordAPIError: Unknown Message" |}.

(** A Discord that is ready, knows the channel, accepts what it is sent
    and finds a message exactly when it is asked for one by id. *)
Definition discord : DcBot :=
  {| ready := Resolved tt;
     channels := ["chan"];
     channel_send := λ _ _ _, Resolved {| dc_id := 555 |};
     channel_fetchMessage := λ _ id,
       match id with
       | Some d => Resolved {| dc_id := d |}
       | None => Rejected boom
       end;
     message_edit := λ _ _, Resolved tt |}.

(** The same Discord, refusing every send. *)
Definition deaf_discord : DcBot :=
  {| ready := Resolved tt;
     channels := ["chan"];
     channel_send := λ _ _ _, Rejected boom;
     channel_fetchMessage := λ _ _, Rejected boom;
     message_edit := λ _ _, Rejected boom |}.

(** A Telegram whose one file has the path and the chunks given. *)
Definition telegram (who : option User) (path : string)
    (content : list (list byte)) : TgBot :=
  {| me := who;
     getFile := λ _, Resolved {| file_path := Some path |};
     helperGetFileStream := λ _, Resolved {| chunks := content; ends := true |};
     sendMessage := λ _ _ _, None |}.

Definition job (resolve : bool) : SendFile.Args :=
  {| SendFile.discordChannel := "chan";
     SendFile.message := msg 1 7;
     SendFile.fileId := "f1";
     SendFile.fileName := Some "voice";
     SendFile.caption := None;
     SendFile.resolveExtension := Some resolve |}.

Definition no_mime (_ : option string) : option string := None.

(** A source that hands out update 5, then update 3, then nothing. *)
Definition stale_script (n : nat) : FetchResult :=
  match n with
  | 0%nat => Fetched [update 5]
  | 1%nat => Fetched [update 3]
  | _ => Fetched []
  end.

(** A source that hands out update 3, then update 5, then nothing. *)
Definition backlog_script (n : nat) : FetchResult :=
  match n with
  | 0%nat => Fetched [update 3]
  | 1%nat => Fetched [update 5]
  | _ => Fetched []
  end.

Definition grin : Sticker :=
  {| thumb := Some {| photo_file_id := "t1" |}; emoji := Some "😀" |}.

(** A [handleUpdates] that emits what the first version emits and returns
    the id of the last update of the batch, 0 for an empty batch. *)
Definition handleUpdates (updates : list Update)
  : Completion Z * list (string * Message) :=
  (Returned (default 0 (update_id <$> last updates)),
   concat ((λ update,
              omap (λ c, match c with
                         | Emit event msg => Some (event, msg)
                         | _ => None
                         end) (emit_update update)) <$> updates)).

End Sample.

(** ** From an update to the listeners *)

(** [emitter.emit(event, message)]: the listeners registered for the event
    are called in the order of their registration; each is an async
    function, and [emit] drops the promise it returns. *)
Definition emit (registrations : list (string * (Message → M unit)))
    (event : string) (msg : Message) : M unit :=
  foldr (λ listener rest, let* _ := not_awaited (listener msg) in rest)
        (ret tt)
        ((filter (λ registration, registration.1 = event) registrations).*2).

(** One update of a batch, first version: what [emit_update] emits goes to
    the listeners [setup] has registered on the bot, into which the emitter
    is mixed. *)
Definition deliver (app : Application) (tgBot : TgBot) (dcBot : DcBot)
    (messageConverter : Message → Completion MessageObj)
    (mime_getExtension : option string → option string)
    (toLowerCase : string → string)
    (update : Update) : M unit :=
  foldr (λ c rest,
           match c with
           | Emit event msg =>
               let* _ := emit (setup app tgBot dcBot messageConverter
                                     mime_getExtension toLowerCase) event msg in
               rest
           | _ => rest
           end)
        (ret tt)
        (emit_update update).

(** ** The start of the poller *)

(** [clearInitialUpdates] once more, with the requests it makes (each with
    timeout 0) and the number of answers it has used up. *)
Fixpoint clearInitialUpdates_traced (fuel : nat) (getUpdates : nat → FetchResult)
    (n : nat) (offset : Z) : option (Outcome Z * nat * list PollCall) :=
  match fuel with
  | O => None
  | S fuel' =>
      let request := GetUpdates offset 0 in
      match getUpdates n with
      | FetchFailed err => Some (Rejected err, S n, [request])
      | Fetched updates =>
          let newestOffset := offset in
          match last updates with
          | Some newest =>
              let newOffset := update_id newest + 1 in
              match clearInitialUpdates_traced fuel' getUpdates (S n) newOffset with
              | Some (outcome, used, calls) => Some (outcome, used, request :: calls)
              | None => None
              end
          | None => Some (Resolved newestOffset, S n, [request])
          end
      end
  end.

(** [updateGetter(bot)], first version, run for [rounds] rounds of
    [fetchUpdates] once the clearing, if asked for, is over.  The outcome is
    the offset after the last round, or the rejection of the clearing, after
    which no round is run; [None] means [fuel] did not suffice for the
    clearing. *)
Definition updateGetter (app : Application) (fuel rounds : nat)
    (getUpdates : nat → FetchResult) : option (Outcome Z * list PollCall) :=
  let offset := 0 in
  if skipOldMessages (settings app) then
    let before :=
      if debug (settings app) then [LoggerLog "Clearing old Telegram messages"]
      else [] in
    match clearInitialUpdates_traced fuel getUpdates 0 0 with
    | None => None
    | Some (Resolved newOffset, used, calls) =>
        let after :=
          if debug (settings app) then [LoggerLog "Old Telegram messages cleared"]
          else [] in
        let '(final, calls') :=
          fetchUpdates app (getUpdates <$> seq used rounds) newOffset in
        Some (Resolved final, before ++ calls ++ after ++ calls')
    | Some (Rejected err, _, calls) => Some (Rejected err, before ++ calls)
    | Some (Pending, _, calls) => Some (Pending, before ++ calls)
    end
  else
    let '(final, calls') :=
      fetchUpdates app (getUpdates <$> seq 0 rounds) offset in
    Some (Resolved final, calls').

(** ** More vocabulary *)

Definition is_emit (c : PollCall) : bool :=
  match c with
  | Emit _ _ => true
  | _ => false
  end.

(** The events of a record of calls, in order. *)
Definition emitted (calls : list PollCall) : list PollCall :=
  filter (λ c, is_emit c = true) calls.

Definition is_log_line (c : PollCall) : bool :=
  match c with
  | LoggerLog _ => true
  | _ => false
  end.

Definition is_fetch_error (c : PollCall) : bool :=
  match c with
  | LoggerErrorFetch _ _ => true
  | _ => false
  end.

Definition is_failure (result : FetchResult) : bool :=
  match result with
  | FetchFailed _ => true
  | Fetched _ => false
  end.

(** The updates of the batches of a script, in order of arrival. *)
Definition arrived (results : list FetchResult) : list Update :=
  concat ((λ result, match result with
                     | Fetched updates => updates
                     | FetchFailed _ => []
                     end) <$> results).

(** No dot in the string. *)
Fixpoint dotless (s : string) : bool :=
  match s with
  | EmptyString => true
  | String c s' => negb (Ascii.eqb c "."%char) && dotless s'
  end.

Definition is_error_log (c : Call) : bool :=
  match c with
  | LoggerError _ _ => true
  | _ => false
  end.

Definition is_telegram_call (c : Call) : bool :=
  match c with
  | TgSendMessage _ _ _ | TgGetFile _ | TgHelperGetFileStream _ => true
  | _ => false
  end.

(** The application with debug logging switched off. *)
Definition quiet (app : Application) : Application :=
  {| settings := {| debug := false;
                    sendEmojiWithStickers := sendEmojiWithStickers (settings app);
                    skipOldMessages := skipOldMessages (settings app) |};
     bridgeMap := bridgeMap app |}.

(** The timeouts the source was asked with, in order. *)
Definition timeouts (calls : list PollCall) : list Z :=
  omap (λ c, match c with
             | GetUpdates _ timeout => Some timeout
             | _ => None
             end) calls.

(** An update that carries nothing but its id. *)
Definition bare_update (id : Z) : Update :=
  {| update_id := id; message := None; channel_post := None;
     edited_message := None |}.

(** ** More sample values *)

Module Fixture.

(** A Discord that is not ready yet. *)
Definition sleeping_discord : DcBot :=
  {| ready := Pending;
     channels := ["chan"];
     channel_send := λ _ _ _, Resolved {| dc_id := 555 |};
     channel_fetchMessage := λ _ _, Rejected Sample.boom;
     message_edit := λ _ _, Resolved tt |}.

(** A Telegram whose download never ends. *)
Definition stalled_telegram : TgBot :=
  {| me := None;
     getFile := λ _, Resolved {| file_path := Some "foo/bar.ogg" |};
     helperGetFileStream := λ _, Resolved {| chunks := []; ends := false |};
     sendMessage := λ _ _ _, None |}.

(** A Telegram that gives files without a path. *)
Definition pathless_telegram : TgBot :=
  {| me := None;
     getFile := λ _, Resolved {| file_path := None |};
     helperGetFileStream := λ _, Resolved {| chunks := []; ends := true |};
     sendMessage := λ _ _ _, None |}.

Definition document_msg : Message :=
  {| message_id := 1; chat := {| chat_id := 7 |};
     text := None; photo := None;
     document := Some {| document_file_id := "d1"; file_name := None |};
     voice := None; audio := None; video := None; sticker := None;
     caption := Some "see this" |}.

Definition voice_msg : Message :=
  {| message_id := 1; chat := {| chat_id := 7 |};
     text := None; photo := None; document := None;
     voice := Some {| voice_file_id := "v1"; voice_mime_type := Some "audio/x" |};
     audio := None; video := None; sticker := None; caption := None |}.

Definition audio_msg : Message :=
  {| message_id := 1; chat := {| chat_id := 7 |};
     text := None; photo := None; document := None; voice := None;
     audio := Some {| audio_file_id := "a1"; title := Some "song" |};
     video := None; sticker := None; caption := None |}.

(** A source that always has one more update. *)
Definition busy_script (n : nat) : FetchResult :=
  Fetched [Sample.update (Z.of_nat n)].

(** A source that hands out update 3 and then fails. *)
Definition failing_script (n : nat) : FetchResult :=
  match n with
  | 0%nat => Fetched [Sample.update 3]
  | 1%nat => FetchFailed Sample.boom
  | _ => Fetched []
  end.

(** A source that hands out updates 3 and 4, then nothing, then update 5. *)
Definition restart_script (n : nat) : FetchResult :=
  match n with
  | 0%nat => Fetched [Sample.update 3; Sample.update 4]
  | 1%nat => Fetched []
  | 2%nat => Fetched [Sample.update 5]
  | _ => Fetched []
  end.

End Fixture.

(** * Properties *)

(** ** The file sender *)

Lemma push_all {A} (l acc : list A) :
  fold_left (λ buffers chunk, buffers ++ [chunk]) l acc = acc ++ l.
Proof.
  revert acc; induction l as [|x l IH]; intros acc; simpl.
  - by rewrite app_nil_r.
  - by rewrite IH, <- app_assoc.
Qed.

Lemma append_empty_r (s : string) : s +:+ "" = s.
Proof.
  induction s as [|c s IH]; [done|].
  change (String c s +:+ "") with (String c (s +:+ "")). by rewrite IH.
Qed.

Section FileSender.

Variable tgBot : TgBot.
Variable dcBot : DcBot.
Variable messageConverter : Message → Completion MessageObj.

(** When the conversion and every step after it succeed, the sender asks
    Telegram for the file and for its stream, and makes one upload. *)
Lemma makeFileSender_calls (args : SendFile.Args) (messageObj : MessageObj)
    (file : File) (stream : FileStream) (extension : string) map :
  messageConverter (SendFile.message args) = Returned messageObj →
  ready dcBot = Resolved tt →
  getFile tgBot (SendFile.fileId args) = Resolved file →
  (if default false (SendFile.resolveExtension args)
   then ∃ path, file_path file = Some path
                ∧ extension = "." +:+ Js.str (Js.pop (Js.split_dot path))
   else extension = "") →
  helperGetFileStream tgBot file = Resolved stream →
  ends stream = true →
  SendFile.discordChannel args ∈ channels dcBot →
  calls_of (makeFileSender tgBot dcBot messageConverter args map) =
    [ TgGetFile (SendFile.fileId args);
      TgHelperGetFileStream file;
      DcSend (SendFile.discordChannel args)
             (textToSend messageObj args)
             (Some {| attachment := concat (chunks stream);
                      attachment_name :=
                        Js.str (SendFile.fileName args) +:+ extension |}) ].
Proof.
  intros Hconverted Hready Hfile Hext Hstream Hends Hchan.
  unfold makeFileSender, calls_of, bind, await, call, invoke.
  rewrite Hconverted, Hready, Hfile. simpl.
  destruct (default false (SendFile.resolveExtension args)).
  - destruct Hext as (path & Hpath & ->). rewrite Hpath. simpl.
    rewrite Hstream, Hends. simpl.
    rewrite bool_decide_eq_true_2 by done. simpl.
    by rewrite push_all.
  - subst extension. simpl. rewrite Hstream, Hends. simpl.
    rewrite bool_decide_eq_true_2 by done. simpl.
    by rewrite push_all.
Qed.

(** C8. Whenever the file sender uploads, the attachment is the
    concatenation, in order of delivery, of the chunks of the stream
    Telegram gave for the file. *)
Theorem upload_is_concatenation_of_chunks (args : SendFile.Args) map
    (channel body : string) (sent : Attachment) :
  In (DcSend channel body (Some sent))
     (calls_of (makeFileSender tgBot dcBot messageConverter args map)) →
  ∃ file stream,
    getFile tgBot (SendFile.fileId args) = Resolved file
    ∧ helperGetFileStream tgBot file = Resolved stream
    ∧ ends stream = true
    ∧ attachment sent = concat (chunks stream).
Proof.
  unfold makeFileSender, calls_of, bind, await, call, invoke, field, ret,
    throw, never.
  intros Hin.
  repeat (case_match; simplify_eq/=); try tauto;
    repeat (destruct Hin as [Hin|Hin]; simplify_eq/=).
  all: try done; try (exfalso; simpl in *; tauto).
  all: rewrite push_all; simpl; eauto 10.
Qed.

(** What the converter throws rejects the sender before it does
    anything. *)
Lemma makeFileSender_throws (args : SendFile.Args) (thrown : Err) map :
  messageConverter (SendFile.message args) = Thrown thrown →
  makeFileSender tgBot dcBot messageConverter args map
  = (Rejected thrown, map, []).
Proof.
  intros Hthrown. unfold makeFileSender, bind, invoke, throw.
  by rewrite Hthrown.
Qed.

(** C9. With every step succeeding and the file at [foo/bar.ogg], the
    upload is named after [fileName], with [.ogg] appended exactly when
    [resolveExtension] is set.  The steps come after the conversion of the
    message: if that throws, there is no upload, and no call at all. *)
Theorem extension_resolution (args : SendFile.Args) (file : File)
    (stream : FileStream) (fileName : string) map :
  ready dcBot = Resolved tt →
  getFile tgBot (SendFile.fileId args) = Resolved file →
  file_path file = Some "foo/bar.ogg" →
  SendFile.fileName args = Some fileName →
  helperGetFileStream tgBot file = Resolved stream →
  ends stream = true →
  SendFile.discordChannel args ∈ channels dcBot →
  calls_of (makeFileSender tgBot dcBot messageConverter args map) =
    match messageConverter (SendFile.message args) with
    | Returned messageObj =>
        [ TgGetFile (SendFile.fileId args);
          TgHelperGetFileStream file;
          DcSend (SendFile.discordChannel args)
                 (textToSend messageObj args)
                 (Some {| attachment := concat (chunks stream);
                          attachment_name :=
                            if default false (SendFile.resolveExtension args)
                            then fileName +:+ ".ogg"
                            else fileName |}) ]
    | Thrown _ => []
    end.
Proof.
  intros Hready Hfile Hpath Hname Hstream Hends Hchan.
  destruct (messageConverter (SendFile.message args))
    as [messageObj|thrown] eqn:Hconverted;
    [|by rewrite (makeFileSender_throws args thrown)].
  destruct (default false (SendFile.resolveExtension args)) eqn:Hresolve.
  - rewrite (makeFileSender_calls args messageObj file stream ".ogg"); try done.
    + by rewrite Hname.
    + rewrite Hresolve. by exists "foo/bar.ogg".
  - rewrite (makeFileSender_calls args messageObj file stream ""); try done.
    + rewrite Hname. simpl. by rewrite append_empty_r.
    + by rewrite Hresolve.
Qed.

End FileSender.

(** A stream delivering [AB] then [CD] is uploaded as [ABCD]. *)
Lemma upload_is_concatenation_of_chunks_witness :
  calls_of (makeFileSender
              (Sample.telegram None "foo/bar.ogg" [["A"; "B"]; ["C"; "D"]]%byte)
              Sample.discord Sample.converter (Sample.job false) ∅)
  = [ TgGetFile "f1";
      TgHelperGetFileStream {| file_path := Some "foo/bar.ogg" |};
      DcSend "chan" ("**alice**:" +:+ Js.newline)
             (Some {| attachment := ["A"; "B"; "C"; "D"]%byte;
                      attachment_name := "voice" |}) ]
  ∧ ∃ file stream,
      getFile (Sample.telegram None "foo/bar.ogg"
                 [["A"; "B"]; ["C"; "D"]]%byte) "f1" = Resolved file
      ∧ helperGetFileStream (Sample.telegram None "foo/bar.ogg"
                               [["A"; "B"]; ["C"; "D"]]%byte) file
        = Resolved stream
      ∧ ends stream = true
      ∧ ["A"; "B"; "C"; "D"]%byte = concat (chunks stream).
Proof.
  split; [reflexivity|].
  apply (upload_is_concatenation_of_chunks
           (Sample.telegram None "foo/bar.ogg" [["A"; "B"]; ["C"; "D"]]%byte)
           Sample.discord Sample.converter (Sample.job false) ∅
           "chan" ("**alice**:" +:+ Js.newline)
           {| attachment := ["A"; "B"; "C"; "D"]%byte;
              attachment_name := "voice" |}).
  vm_compute. right; right; left; reflexivity.
Defined.

(** With the file at [foo/bar.ogg] the name [voice] becomes [voice.ogg]
    when the extension is to be resolved, and stays [voice] when not. *)
Lemma extension_resolution_witness :
  (calls_of (makeFileSender (Sample.telegram None "foo/bar.ogg" [])
               Sample.discord Sample.converter (Sample.job true) ∅) =
     [ TgGetFile "f1";
       TgHelperGetFileStream {| file_path := Some "foo/bar.ogg" |};
       DcSend "chan" ("**alice**:" +:+ Js.newline)
              (Some {| attachment := []; attachment_name := "voice.ogg" |}) ])
  ∧ (calls_of (makeFileSender (Sample.telegram None "foo/bar.ogg" [])
                 Sample.discord Sample.converter (Sample.job false) ∅) =
       [ TgGetFile "f1";
         TgHelperGetFileStream {| file_path := Some "foo/bar.ogg" |};
         DcSend "chan" ("**alice**:" +:+ Js.newline)
                (Some {| attachment := []; attachment_name := "voice" |}) ]).
Proof.
  split.
  - exact (extension_resolution (Sample.telegram None "foo/bar.ogg" [])
             Sample.discord Sample.converter (Sample.job true)
             {| file_path := Some "foo/bar.ogg" |}
             {| chunks := []; ends := true |} "voice" ∅
             eq_refl eq_refl eq_refl eq_refl eq_refl eq_refl
             ltac:(vm_compute; left)).
  - exact (extension_resolution (Sample.telegram None "foo/bar.ogg" [])
             Sample.discord Sample.converter (Sample.job false)
             {| file_path := Some "foo/bar.ogg" |}
             {| chunks := []; ends := true |} "voice" ∅
             eq_refl eq_refl eq_refl eq_refl eq_refl eq_refl
             ltac:(vm_compute; left)).
Defined.

(** ** The wrapper around every handler *)

Section Wrapper.

Variable app : Application.
Variable tgBot : TgBot.
Variable toLowerCase : string → string.

Lemma wrapper_without_bridge (func : Message → Bridge → M unit) (msg : Message) map :
  is_chatinfo tgBot toLowerCase msg = false →
  bridgeMap app !! chat_id (chat msg) = None →
  createMessageHandler app tgBot toLowerCase func msg map
  = (Resolved tt, map, notice_calls tgBot msg).
Proof.
  intros Hinfo Hbridge.
  unfold createMessageHandler. rewrite Hinfo, Hbridge.
  unfold try_catch, tgBot_sendMessage, call, notice_calls.
  by destruct (sendMessage tgBot _ _ _).
Qed.

Lemma wrapper_with_bridge (func : Message → Bridge → M unit) (msg : Message)
    (bridge : Bridge) map :
  is_chatinfo tgBot toLowerCase msg = false →
  bridgeMap app !! chat_id (chat msg) = Some bridge →
  createMessageHandler app tgBot toLowerCase func msg map
  = not_awaited (func msg bridge) map.
Proof.
  intros Hinfo Hbridge.
  unfold createMessageHandler. by rewrite Hinfo, Hbridge.
Qed.

Lemma is_chatinfo_needs_me (msg : Message) :
  is_chatinfo tgBot toLowerCase msg = true → is_Some (me tgBot).
Proof.
  unfold is_chatinfo. destruct (text msg), (me tgBot); by eauto.
Qed.

(** C5. A message from a chat without a bridge, not being a chat-info
    request, gets the notice once, in its own chat; nothing is sent to
    Discord, the message map is left alone, and the wrapped handler has
    no part in it: this holds for each listener [setup] registers. *)
Theorem unbridged_chat_gets_notice_only (func : Message → Bridge → M unit)
    (msg : Message) map :
  is_chatinfo tgBot toLowerCase msg = false →
  bridgeMap app !! chat_id (chat msg) = None →
  let result := createMessageHandler app tgBot toLowerCase func msg map in
  filter (λ c, is_tg_send c = true) (calls_of result)
    = [TgSendMessage (chat_id (chat msg)) NOTICE (Some "markdown")]
  ∧ filter (λ c, is_destination_call c = true) (calls_of result) = []
  ∧ map_of result = map
  ∧ (∀ other : Message → Bridge → M unit,
       createMessageHandler app tgBot toLowerCase other msg map = result)
  ∧ (∀ dcBot messageConverter mime_getExtension event listener,
       (event, listener)
       ∈ setup app tgBot dcBot messageConverter mime_getExtension toLowerCase →
       listener msg map = result).
Proof.
  intros Hinfo Hbridge result.
  assert (result = (Resolved tt, map, notice_calls tgBot msg)) as ->
    by by apply wrapper_without_bridge.
  unfold calls_of, map_of, notice_calls; simpl.
  repeat split.
  - by destruct (sendMessage tgBot _ _ _).
  - by destruct (sendMessage tgBot _ _ _).
  - intros other. by apply wrapper_without_bridge.
  - intros dcBot messageConverter mime_getExtension event listener Hin.
    unfold setup, wrapFunction in Hin.
    repeat (apply elem_of_cons in Hin as [Hin|Hin];
            [injection Hin as _ ->; by apply wrapper_without_bridge|]).
    by apply elem_of_nil in Hin.
Qed.

(** C10. The chat-info reply needs the bot's identity.  Without it no
    message is a chat-info request, whatever its text: the message goes
    through the bridge check like any other, to the notice or to the
    handler.
    With it, a text that [toLowerCase] takes to the same string as the
    request, [@] and the name of the bot and [ chatinfo], is answered
    with the chat id, bridge or no bridge, and the handler is not run. *)
Theorem chatinfo_needs_identity (func : Message → Bridge → M unit)
    (msg : Message) map :
  (is_chatinfo tgBot toLowerCase msg = true → is_Some (me tgBot))
  ∧ (me tgBot = None →
       match bridgeMap app !! chat_id (chat msg) with
       | None =>
           createMessageHandler app tgBot toLowerCase func msg map
           = (Resolved tt, map, notice_calls tgBot msg)
       | Some bridge =>
           createMessageHandler app tgBot toLowerCase func msg map
           = not_awaited (func msg bridge) map
       end)
  ∧ (∀ bot body,
       me tgBot = Some bot →
       text msg = Some body →
       toLowerCase body = toLowerCase ("@" +:+ username bot +:+ " chatinfo") →
       calls_of (createMessageHandler app tgBot toLowerCase func msg map)
       = [TgSendMessage (chat_id (chat msg))
                        ("chatID: " +:+ pretty (chat_id (chat msg))) None]).
Proof.
  split; [apply is_chatinfo_needs_me|split].
  - intros Hme.
    assert (is_chatinfo tgBot toLowerCase msg = false) as Hinfo.
    { unfold is_chatinfo. rewrite Hme. by destruct (text msg). }
    destruct (bridgeMap app !! chat_id (chat msg)) as [bridge|] eqn:Hbridge.
    + by apply wrapper_with_bridge.
    + by apply wrapper_without_bridge.
  - intros bot body Hme Htext Hsame.
    unfold createMessageHandler, is_chatinfo.
    rewrite Htext, Hme, Hsame, String.eqb_refl.
    reflexivity.
Qed.

End Wrapper.

(** A text from chat 8, which has no bridge, to a bot that knows its name:
    the notice goes to chat 8 and nothing goes to Discord, whichever
    listener of [setup] is asked. *)
Lemma unbridged_chat_gets_notice_only_witness :
  calls_of (createMessageHandler (Sample.app true)
              (Sample.telegram (Some Sample.bot) "" [])
              Sample.ascii_toLowerCase
              (text_handler Sample.discord Sample.converter)
              (Sample.text_msg 10 8 "hello") ∅)
  = [TgSendMessage 8 NOTICE (Some "markdown")]
  ∧ Forall (λ registration,
              registration.2 (Sample.text_msg 10 8 "hello") ∅
              = (Resolved tt, ∅, [TgSendMessage 8 NOTICE (Some "markdown")]))
           (setup (Sample.app true) (Sample.telegram (Some Sample.bot) "" [])
                  Sample.discord Sample.converter Sample.no_mime
                  Sample.ascii_toLowerCase).
Proof.
  destruct (unbridged_chat_gets_notice_only
              (Sample.app true) (Sample.telegram (Some Sample.bot) "" [])
              Sample.ascii_toLowerCase
              (text_handler Sample.discord Sample.converter)
              (Sample.text_msg 10 8 "hello") ∅ eq_refl eq_refl)
    as (_ & _ & _ & _ & Hlisteners).
  split; [reflexivity|].
  apply Forall_forall. intros [event listener] Hin.
  apply (Hlisteners _ _ _ _ _ Hin).
Defined.

(** The request [@Bot chatinfo] from chat 8, which has no bridge: before
    the bot knows its name the chat gets the notice, after it the chat id. *)
Lemma chatinfo_needs_identity_witness :
  calls_of (createMessageHandler (Sample.app true) (Sample.telegram None "" [])
              Sample.ascii_toLowerCase
              (text_handler Sample.discord Sample.converter)
              (Sample.text_msg 10 8 "@Bot chatinfo") ∅)
  = [TgSendMessage 8 NOTICE (Some "markdown")]
  ∧ calls_of (createMessageHandler (Sample.app true)
                (Sample.telegram (Some {| user_id := 1; username := "bot" |}) "" [])
                Sample.ascii_toLowerCase
                (text_handler Sample.discord Sample.converter)
                (Sample.text_msg 10 8 "@Bot chatinfo") ∅)
    = [TgSendMessage 8 "chatID: 8" None].
Proof.
  split.
  - destruct (chatinfo_needs_identity
                (Sample.app true) (Sample.telegram None "" [])
                Sample.ascii_toLowerCase
                (text_handler Sample.discord Sample.converter)
                (Sample.text_msg 10 8 "@Bot chatinfo") ∅)
      as (_ & Hwithout & _).
    exact (f_equal calls_of (Hwithout eq_refl)).
  - destruct (chatinfo_needs_identity
                (Sample.app true)
                (Sample.telegram (Some {| user_id := 1; username := "bot" |}) "" [])
                Sample.ascii_toLowerCase
                (text_handler Sample.discord Sample.converter)
                (Sample.text_msg 10 8 "@Bot chatinfo") ∅)
      as (_ & _ & Hwith).
    exact (Hwith {| user_id := 1; username := "bot" |} "@Bot chatinfo"
                 eq_refl eq_refl eq_refl).
Defined.

(** ** The handlers *)

Section Handlers.

Variable app : Application.
Variable tgBot : TgBot.
Variable dcBot : DcBot.
Variable messageConverter : Message → Completion MessageObj.

(** C4. For a sticker with its thumbnail, the handler builds one job.
    Its caption is the emoji of the sticker when [sendEmojiWithStickers]
    is set, and is left out when it is not, so that the text sent ends
    after the sender's name; for a sticker that has an emoji, the caption
    is that emoji exactly when the setting is set. *)
Theorem sticker_caption_gating (msg : Message) (bridge : Bridge)
    (st : Sticker) (th : PhotoSize) map :
  sticker msg = Some st →
  thumb st = Some th →
  ∃ job,
    sticker_args app msg bridge map = (Resolved job, map, [])
    ∧ sticker_handler app tgBot dcBot messageConverter msg bridge map
      = file_handler tgBot dcBot messageConverter (λ _ _, ret job)
                     " Could not send sticker" msg bridge map
    ∧ (sendEmojiWithStickers (settings app) = true →
         SendFile.caption job = emoji st)
    ∧ SendFile.message job = msg
    ∧ (sendEmojiWithStickers (settings app) = false →
         SendFile.caption job = None
         ∧ ∀ messageObj,
             textToSend messageObj job
             = "**" +:+ from messageObj +:+ "**:" +:+ Js.newline +:+ "")
    ∧ (is_Some (emoji st) →
         SendFile.caption job = emoji st
         ↔ sendEmojiWithStickers (settings app) = true).
Proof.
  intros Hsticker Hthumb.
  eexists. split; [|split].
  - unfold sticker_args, field, bind, ret. rewrite Hsticker. simpl.
    rewrite Hthumb. simpl. reflexivity.
  - unfold sticker_handler, file_handler, sticker_args, try_catch, field, bind, ret.
    rewrite Hsticker. simpl. rewrite Hthumb. simpl. reflexivity.
  - simpl. destruct (sendEmojiWithStickers (settings app)).
    + repeat split; done.
    + repeat split; try done.
      intros Hsame. rewrite <- Hsame in *. exfalso. by eapply is_Some_None.
Qed.

(** C6. When Discord refuses the converted text, the handler ends
    normally after logging the refusal and the text, and the message map is
    as it was.  And however the handler goes, whatever Discord and the
    converter do, the map changes only after a send that succeeded, by the
    entry from the source id to the id Discord gave. *)
Theorem failed_send_writes_no_mapping (msg : Message) (bridge : Bridge) map
    (messageObj : MessageObj) (err : Err) :
  messageConverter msg = Returned messageObj →
  ready dcBot = Resolved tt →
  discord_channel bridge ∈ channels dcBot →
  channel_send dcBot (discord_channel bridge) (composed messageObj) None
  = Rejected err →
  text_handler dcBot messageConverter msg bridge map
  = (Resolved tt, map,
     [ DcSend (discord_channel bridge) (composed messageObj) None;
       LoggerError (tag bridge " Discord did not accept a text message:")
                   (ArgErr err);
       LoggerError (tag bridge " Failed message:") (ArgText (text msg)) ])
  ∧ (∀ dcBot' messageConverter' map',
       map_of (text_handler dcBot' messageConverter' msg bridge map') = map'
       ∨ ∃ messageObj' dcMessage,
           messageConverter' msg = Returned messageObj'
           ∧ channel_send dcBot' (discord_channel bridge)
                          (composed messageObj') None
             = Resolved dcMessage
           ∧ map_of (text_handler dcBot' messageConverter' msg bridge map')
             = MessageMap.insert TELEGRAM_TO_DISCORD (message_id msg)
                                 (dc_id dcMessage) map').
Proof.
  intros Hconverted Hready Hchan Hsend. split.
  - unfold text_handler, try_catch, bind, await, channels_get, call,
      logger_error, invoke, ret.
    rewrite Hconverted, Hready. simpl.
    rewrite bool_decide_eq_true_2 by done. simpl.
    rewrite Hsend. reflexivity.
  - intros dcBot' messageConverter' map'.
    unfold text_handler, try_catch, bind, await, channels_get, call,
      logger_error, invoke, ret, throw, map_of.
    destruct (messageConverter' msg) as [messageObj'|e]; simpl; try by left.
    destruct (ready dcBot') as [[]|e|]; simpl; try by left.
    case_bool_decide; simpl; try by left.
    destruct (channel_send dcBot' _ _ _) as [dcMessage|e|] eqn:Hsent; simpl;
      try by left.
    right. by exists messageObj', dcMessage.
Qed.

(** C1. With Discord ready and the channel known, the edit handler
    passes what the message map answers, an id or not-found alike, to
    [fetchMessage]: that call is always made.  On a mapped id, once the
    message is fetched, it is edited to the newly converted text; the
    conversion comes after the fetch, and if it throws, no edit is made
    and what it threw is logged.  On an unmapped id, if the fetch is
    refused, nothing else is asked of Discord and the refusal is logged,
    once. *)
Theorem edit_correlation (tgMessage : Message) (bridge : Bridge) map :
  ready dcBot = Resolved tt →
  discord_channel bridge ∈ channels dcBot →
  let found :=
    MessageMap.getCorresponding TELEGRAM_TO_DISCORD (message_id tgMessage) map in
  let calls :=
    calls_of (messageEdit_handler dcBot messageConverter tgMessage bridge map) in
  head calls = Some (DcFetchMessage (discord_channel bridge) found)
  ∧ (∀ dcMessage,
       channel_fetchMessage dcBot (discord_channel bridge) found
       = Resolved dcMessage →
       match messageConverter tgMessage with
       | Returned messageObj =>
           filter (λ c, is_destination_call c = true) calls
           = [ DcFetchMessage (discord_channel bridge) found;
               DcEdit dcMessage (composed messageObj) ]
       | Thrown err =>
           calls = [ DcFetchMessage (discord_channel bridge) found;
                     LoggerError (tag bridge " Could not edit Discord message:")
                                 (ArgErr err) ]
       end)
  ∧ (∀ err,
       channel_fetchMessage dcBot (discord_channel bridge) found
       = Rejected err →
       calls = [ DcFetchMessage (discord_channel bridge) found;
                 LoggerError (tag bridge " Could not edit Discord message:")
                             (ArgErr err) ]).
Proof.
  intros Hready Hchan found calls. subst found calls.
  unfold messageEdit_handler, try_catch, bind, await, channels_get, call,
    logger_error, invoke, ret, throw, calls_of.
  rewrite Hready. simpl.
  rewrite bool_decide_eq_true_2 by done. simpl.
  split; [|split].
  - destruct (channel_fetchMessage dcBot _ _); simpl;
      [destruct (messageConverter tgMessage); simpl;
       [destruct (message_edit dcBot _ _)|]|..]; done.
  - intros dcMessage ->. simpl.
    destruct (messageConverter tgMessage); simpl; [|done].
    by destruct (message_edit dcBot _ _).
  - by intros err ->.
Qed.

End Handlers.

(** No flag of the bridge decides the caption: for one and the same bridge
    it is the emoji or not according to the setting of the application. *)
Lemma sticker_caption_is_not_per_bridge :
  ¬ ∃ flag : Bridge → bool,
      ∀ app bridge,
        sticker_caption app (Sample.sticker_msg 1 7 Sample.grin) bridge
        = emoji Sample.grin
        ↔ flag bridge = true.
Proof.
  intros (flag & Hflag).
  pose proof (proj1 (Hflag (Sample.app true) Sample.bridge) eq_refl) as Hset.
  pose proof (proj2 (Hflag (Sample.app false) Sample.bridge) Hset) as Homitted.
  discriminate Homitted.
Qed.

Lemma sticker_caption_gating_witness :
  ∃ job,
    sticker_args (Sample.app true) (Sample.sticker_msg 1 7 Sample.grin)
                 Sample.bridge ∅ = (Resolved job, ∅, [])
    ∧ SendFile.caption job = Some "😀".
Proof.
  destruct (sticker_caption_gating
              (Sample.app true) (Sample.telegram None "" [])
              Sample.discord Sample.converter
              (Sample.sticker_msg 1 7 Sample.grin) Sample.bridge
              Sample.grin {| photo_file_id := "t1" |} ∅ eq_refl eq_refl)
    as (job & Hjob & _ & Hset & _).
  exists job. split; [exact Hjob|exact (Hset eq_refl)].
Defined.

Lemma failed_send_writes_no_mapping_witness :
  text_handler Sample.deaf_discord Sample.converter
               (Sample.text_msg 10 7 "hi") Sample.bridge ∅
  = (Resolved tt, ∅,
     [ DcSend "chan" "**alice**: hi" None;
       LoggerError "[b] Discord did not accept a text message:"
                   (ArgErr Sample.boom);
       LoggerError "[b] Failed message:" (ArgText (Some "hi")) ]).
Proof.
  exact (proj1 (failed_send_writes_no_mapping
                  Sample.deaf_discord Sample.converter
                  (Sample.text_msg 10 7 "hi") Sample.bridge ∅
                  (Sample.converted (Sample.text_msg 10 7 "hi"))
                  Sample.boom
                  eq_refl eq_refl ltac:(vm_compute; left) eq_refl)).
Defined.

(** With message 10 mapped to 555, an edit of message 999 still reaches
    Discord: the handler asks it to fetch a message without an id. *)
Lemma edit_of_unmapped_message_reaches_discord :
  MessageMap.getCorresponding TELEGRAM_TO_DISCORD 999
    (MessageMap.insert TELEGRAM_TO_DISCORD 10 555 ∅) = None
  ∧ filter (λ c, is_destination_call c = true)
      (calls_of (messageEdit_handler Sample.discord Sample.converter
                   (Sample.text_msg 999 7 "new") Sample.bridge
                   (MessageMap.insert TELEGRAM_TO_DISCORD 10 555 ∅)))
    = [DcFetchMessage "chan" None].
Proof. split; reflexivity. Qed.

(** With message 10 mapped to 555, an edit of message 10 edits 555. *)
Lemma edit_correlation_witness :
  filter (λ c, is_destination_call c = true)
    (calls_of (messageEdit_handler Sample.discord Sample.converter
                 (Sample.text_msg 10 7 "new") Sample.bridge
                 (MessageMap.insert TELEGRAM_TO_DISCORD 10 555 ∅)))
  = [ DcFetchMessage "chan" (Some 555);
      DcEdit {| dc_id := 555 |} "**alice**: new" ].
Proof.
  destruct (edit_correlation Sample.discord Sample.converter
              (Sample.text_msg 10 7 "new") Sample.bridge
              (MessageMap.insert TELEGRAM_TO_DISCORD 10 555 ∅)
              eq_refl ltac:(vm_compute; left))
    as (_ & Hfetched & _).
  exact (Hfetched {| dc_id := 555 |} eq_refl).
Defined.

(** ** The poller *)

Lemma forEach_update_fold (updates : list Update) (acc : Z * list PollCall) :
  fold_left (λ acc update, (update_id update + 1, acc.2 ++ emit_update update))
            updates acc
  = (match last updates with
     | Some newest => update_id newest + 1
     | None => acc.1
     end,
     acc.2 ++ concat (emit_update <$> updates)).
Proof.
  revert acc. induction updates as [|update later IH]; intros [offset calls].
  - simpl. by rewrite app_nil_r.
  - simpl fold_left. rewrite IH. simpl. f_equal.
    + rewrite last_cons. by destruct (last later).
    + by rewrite <- app_assoc.
Qed.

Lemma forEach_update_offset (updates : list Update) (offset : Z) :
  (forEach_update updates offset).1
  = match last updates with
    | Some newest => update_id newest + 1
    | None => offset
    end.
Proof. unfold forEach_update. by rewrite forEach_update_fold. Qed.

Lemma forEach_update_calls (updates : list Update) (offset : Z) :
  (forEach_update updates offset).2 = concat (emit_update <$> updates).
Proof. unfold forEach_update. by rewrite forEach_update_fold. Qed.

Lemma emit_update_requests_nothing (update : Update) :
  requested (emit_update update) = [].
Proof.
  unfold emit_update.
  repeat case_match; reflexivity.
Qed.

Lemma requested_app (calls calls' : list PollCall) :
  requested (calls ++ calls') = requested calls ++ requested calls'.
Proof. unfold requested. apply omap_app. Qed.

Lemma forEach_update_requests_nothing (updates : list Update) (offset : Z) :
  requested (forEach_update updates offset).2 = [].
Proof.
  rewrite forEach_update_calls.
  induction updates as [|update later IH]; [done|].
  rewrite fmap_cons. cbn [concat].
  by rewrite requested_app, emit_update_requests_nothing, IH.
Qed.

Lemma fetchUpdates_round_requests (app : Application) (offset : Z)
    (result : FetchResult) :
  requested (fetchUpdates_round app offset result).2 = [offset].
Proof.
  unfold fetchUpdates_round.
  destruct result as [updates|err].
  - pose proof (forEach_update_requests_nothing updates offset) as Hnone.
    destruct (forEach_update updates offset) as [offset' events]. simpl in *.
    rewrite requested_app. simpl. rewrite Hnone.
    by destruct (debug (settings app)).
  - simpl. rewrite requested_app. by destruct (debug (settings app)).
Qed.

Lemma fetchUpdates_round_offset (app : Application) (offset : Z)
    (result : FetchResult) :
  (fetchUpdates_round app offset result).1
  = match result with
    | Fetched updates => (forEach_update updates offset).1
    | FetchFailed _ => offset
    end.
Proof.
  unfold fetchUpdates_round. destruct result as [updates|err]; [|done].
  by destruct (forEach_update updates offset).
Qed.

Lemma fetchUpdates_cursors (app : Application) (results : list FetchResult)
    (offset : Z) :
  requested (fetchUpdates app results offset).2
  ++ [(fetchUpdates app results offset).1]
  = cursors results offset.
Proof.
  revert offset. induction results as [|result later IH]; intros offset; [done|].
  simpl.
  pose proof (fetchUpdates_round_requests app offset result) as Hreq.
  pose proof (fetchUpdates_round_offset app offset result) as Hoff.
  destruct (fetchUpdates_round app offset result) as [offset' calls].
  simpl in Hreq, Hoff.
  specialize (IH offset').
  destruct (fetchUpdates app later offset') as [final calls']. simpl in *.
  rewrite requested_app, Hreq. simpl. rewrite IH.
  destruct result; by subst.
Qed.

Lemma last_is_max (updates : list Update) (newest : Update) :
  strictly_increasing updates = true →
  last updates = Some newest →
  max_update_id updates = Some (update_id newest).
Proof.
  induction updates as [|update later IH]; [done|].
  destruct later as [|next later'].
  - simpl. by intros _ [= ->].
  - intros [Hlt Hinc]%andb_true_iff Hlast.
    change (last (update :: next :: later')) with (last (next :: later')) in Hlast.
    specialize (IH Hinc Hlast).
    change (max_update_id (update :: next :: later'))
      with (match max_update_id (next :: later') with
            | Some m => Some (Z.max (update_id update) m)
            | None => Some (update_id update)
            end).
    rewrite IH. f_equal.
    assert (update_id next ≤ update_id newest); [|lia].
    clear -Hinc Hlast. revert next Hinc Hlast.
    induction later' as [|third rest IHr]; intros next Hinc Hlast.
    + injection Hlast as <-. lia.
    + apply andb_true_iff in Hinc as [Hlt Hinc].
      change (last (next :: third :: rest)) with (last (third :: rest)) in Hlast.
      specialize (IHr third Hinc Hlast). lia.
Qed.

Lemma answers_from_advances (offset : Z) (updates : list Update) :
  answers_from offset updates = true →
  offset ≤ (forEach_update updates offset).1.
Proof.
  intros [_ Hfrom]%andb_true_iff.
  rewrite forEach_update_offset.
  destruct (last updates) as [newest|] eqn:Hlast; [|lia].
  rewrite forallb_forall in Hfrom.
  assert (In newest updates) as Hin.
  { apply list_elem_of_In. by apply last_Some_elem_of. }
  specialize (Hfrom newest Hin). lia.
Qed.

Lemma cursors_head (results : list FetchResult) (offset : Z) :
  head (cursors results offset) = Some offset.
Proof. by destruct results as [|[]]. Qed.

Lemma cursors_sorted (results : list FetchResult) (offset : Z) :
  source_in_order results offset = true →
  Sorted Z.le (cursors results offset).
Proof.
  revert offset. induction results as [|result later IH]; intros offset Horder.
  - repeat constructor.
  - destruct result as [updates|err]; simpl in *.
    + apply andb_true_iff in Horder as [Hfrom Horder].
      constructor; [by apply IH|].
      pose proof (cursors_head later (forEach_update updates offset).1) as Hhead.
      destruct (cursors later _); simplify_eq/=.
      constructor. by apply answers_from_advances.
    + constructor; [by apply IH|].
      pose proof (cursors_head later offset) as Hhead.
      destruct (cursors later _); simplify_eq/=.
      constructor. lia.
Qed.

Lemma requested_events (emitted : list (string * Message)) :
  requested ((λ e, Emit e.1 e.2) <$> emitted) = [].
Proof. induction emitted as [|e emitted IH]; [done|exact IH]. Qed.

Lemma fetchUpdates2_round_requests
    (handleUpdates : list Update → Completion Z * list (string * Message))
    (app : Application) (offset : Z) (result : FetchResult) :
  requested (fetchUpdates2_round handleUpdates app offset result).2 = [offset].
Proof.
  unfold fetchUpdates2_round.
  destruct result as [updates|err].
  - destruct (handleUpdates updates) as [[newest|err] emitted]; simpl;
      rewrite requested_app; simpl; rewrite ?requested_app, requested_events;
      by destruct (debug (settings app)).
  - simpl. rewrite requested_app. by destruct (debug (settings app)).
Qed.

(** On a batch that is not empty and is in order, a [handleUpdates] that
    returns the largest id leaves the offset where the first version
    does. *)
Lemma fetchUpdates2_round_offset
    (handleUpdates : list Update → Completion Z * list (string * Message))
    (app : Application) (offset : Z) (updates : list Update) :
  returns_largest_id handleUpdates →
  strictly_increasing updates = true →
  updates ≠ [] →
  (fetchUpdates2_round handleUpdates app offset (Fetched updates)).1
  = (forEach_update updates offset).1.
Proof.
  intros Hlargest Hinc Hnonempty.
  rewrite forEach_update_offset.
  destruct (last updates) as [newest|] eqn:Hlast.
  - pose proof (Hlargest updates (update_id newest) Hinc
                  (last_is_max updates newest Hinc Hlast)) as Hanswer.
    unfold fetchUpdates2_round.
    destruct (handleUpdates updates) as [answer emitted]. simpl in Hanswer.
    by subst answer.
  - apply last_None in Hlast. done.
Qed.

Lemma fetchUpdates2_cons
    (handleUpdates : list Update → Completion Z * list (string * Message))
    (app : Application) (result : FetchResult) (later : list FetchResult)
    (offset : Z) :
  fetchUpdates2 handleUpdates app (result :: later) offset
  = ((fetchUpdates2 handleUpdates app later
        (fetchUpdates2_round handleUpdates app offset result).1).1,
     (fetchUpdates2_round handleUpdates app offset result).2
     ++ (fetchUpdates2 handleUpdates app later
           (fetchUpdates2_round handleUpdates app offset result).1).2).
Proof.
  cbn [fetchUpdates2].
  destruct (fetchUpdates2_round handleUpdates app offset result)
    as [offset' calls].
  cbn [fst snd].
  by destruct (fetchUpdates2 handleUpdates app later offset').
Qed.

Lemma fetchUpdates2_cursors
    (handleUpdates : list Update → Completion Z * list (string * Message))
    (app : Application) (results : list FetchResult) (offset : Z) :
  returns_largest_id handleUpdates →
  source_in_order results offset = true →
  no_empty_batch results = true →
  requested (fetchUpdates2 handleUpdates app results offset).2
  ++ [(fetchUpdates2 handleUpdates app results offset).1]
  = cursors results offset.
Proof.
  intros Hlargest. revert offset.
  induction results as [|result later IH]; intros offset Horder Hnonempty;
    [done|].
  simpl fetchUpdates2.
  pose proof (fetchUpdates2_round_requests handleUpdates app offset result)
    as Hreq.
  assert ((fetchUpdates2_round handleUpdates app offset result).1
          = match result with
            | Fetched updates => (forEach_update updates offset).1
            | FetchFailed _ => offset
            end
          ∧ source_in_order later
              (fetchUpdates2_round handleUpdates app offset result).1 = true
          ∧ no_empty_batch later = true) as (Hoff & Horder' & Hnonempty').
  { destruct result as [updates|err].
    - simpl in Horder, Hnonempty.
      apply andb_true_iff in Horder as [Hfrom Horder].
      apply andb_true_iff in Hfrom as [Hinc _].
      assert (updates ≠ []) as Hne by (intros ->; done).
      assert (no_empty_batch later = true) as Hlater.
      { destruct updates; [done|]. exact Hnonempty. }
      rewrite (fetchUpdates2_round_offset handleUpdates app offset updates)
        by done.
      done.
    - simpl in *. done. }
  destruct (fetchUpdates2_round handleUpdates app offset result)
    as [offset' calls].
  simpl in Hreq, Hoff, Horder'.
  specialize (IH offset' Horder' Hnonempty').
  destruct (fetchUpdates2 handleUpdates app later offset') as [final calls'].
  simpl in *.
  rewrite requested_app, Hreq. simpl. rewrite IH.
  destruct result; by subst.
Qed.

Lemma Sample_handleUpdates_returns_largest_id :
  returns_largest_id Sample.handleUpdates.
Proof.
  intros updates largest Hinc Hmax. unfold Sample.handleUpdates. simpl.
  destruct (last updates) as [newest|] eqn:Hlast.
  - rewrite (last_is_max updates newest Hinc Hlast) in Hmax.
    by injection Hmax as <-.
  - apply last_None in Hlast. by subst updates.
Qed.

Section Poller.

Variable app : Application.

(** C2. As long as the source answers each request with updates not
    older than the offset asked for, in strictly increasing order, the
    offset of the first version never decreases from one request to the
    next.  That of the second version does not either if, besides, no
    batch is empty and [handleUpdates] returns the largest id of such a
    batch; an empty batch sets it to what [handleUpdates] returns for the
    empty batch, plus one, whatever it was before.
    A batch in strictly increasing order leaves the offset at its largest
    id plus one, in the second version provided [handleUpdates] returns
    that id.  A failed fetch leaves the offset where it was, and the next
    request is made with it again, in both versions. *)
Theorem cursor_never_decreases (results : list FetchResult) (offset : Z) :
  source_in_order results offset = true →
  Sorted Z.le (requested (fetchUpdates app results offset).2
               ++ [(fetchUpdates app results offset).1])
  ∧ (∀ handleUpdates,
       returns_largest_id handleUpdates →
       no_empty_batch results = true →
       Sorted Z.le (requested (fetchUpdates2 handleUpdates app results offset).2
                    ++ [(fetchUpdates2 handleUpdates app results offset).1]))
  ∧ (∀ handleUpdates from newest,
       (handleUpdates []).1 = Returned newest →
       (fetchUpdates2_round handleUpdates app from (Fetched [])).1 = newest + 1)
  ∧ (∀ from updates largest,
       strictly_increasing updates = true →
       max_update_id updates = Some largest →
       (fetchUpdates_round app from (Fetched updates)).1 = largest + 1)
  ∧ (∀ handleUpdates,
       returns_largest_id handleUpdates →
       ∀ from updates largest,
         strictly_increasing updates = true →
         max_update_id updates = Some largest →
         (fetchUpdates2_round handleUpdates app from (Fetched updates)).1
         = largest + 1)
  ∧ (∀ from err later,
       (fetchUpdates_round app from (FetchFailed err)).1 = from
       ∧ requested (fetchUpdates app (FetchFailed err :: later) from).2
         = from :: requested (fetchUpdates app later from).2)
  ∧ (∀ handleUpdates from err later,
       (fetchUpdates2_round handleUpdates app from (FetchFailed err)).1 = from
       ∧ requested (fetchUpdates2 handleUpdates app (FetchFailed err :: later) from).2
         = from :: requested (fetchUpdates2 handleUpdates app later from).2).
Proof.
  intros Horder. repeat apply conj.
  - rewrite fetchUpdates_cursors. by apply cursors_sorted.
  - intros handleUpdates Hlargest Hnonempty.
    rewrite fetchUpdates2_cursors by done. by apply cursors_sorted.
  - intros handleUpdates from newest Hanswer.
    unfold fetchUpdates2_round.
    destruct (handleUpdates []) as [answer emitted]. simpl in Hanswer.
    by subst answer.
  - intros from updates largest Hinc Hmax.
    rewrite fetchUpdates_round_offset, forEach_update_offset.
    destruct (last updates) as [newest|] eqn:Hlast.
    + rewrite (last_is_max updates newest Hinc Hlast) in Hmax.
      by injection Hmax as <-.
    + apply last_None in Hlast. by subst updates.
  - intros handleUpdates Hlargest from updates largest Hinc Hmax.
    unfold fetchUpdates2_round.
    specialize (Hlargest updates largest Hinc Hmax).
    destruct (handleUpdates updates) as [answer emitted]. simpl in Hlargest.
    by subst answer.
  - intros from err later. split; [done|].
    simpl. destruct (fetchUpdates app later from) as [final calls]. simpl.
    rewrite requested_app. by destruct (debug (settings app)).
  - intros handleUpdates from err later. split; [done|].
    simpl. destruct (fetchUpdates2 handleUpdates app later from) as [final calls].
    simpl. rewrite requested_app. by destruct (debug (settings app)).
Qed.

End Poller.

(** A source that hands out update 5 and then update 3 takes the offset
    from 6 back to 4. *)
Lemma cursor_decreases_on_stale_update :
  strictly_increasing [Sample.update 5] = true
  ∧ strictly_increasing [Sample.update 3] = true
  ∧ requested (fetchUpdates (Sample.app false)
                 [Fetched [Sample.update 5]; Fetched [Sample.update 3]] 0).2
    = [0; 6]
  ∧ (fetchUpdates (Sample.app false)
       [Fetched [Sample.update 5]; Fetched [Sample.update 3]] 0).1 = 4.
Proof. repeat split. Qed.

(** A failed fetch, updates 3 and 5, nothing, updates 6 and 8: the first
    version asks with 0, 0, 6, 6 and ends at 9.  Without the empty batch
    the second version, with a [handleUpdates] that returns the id of the
    last update, asks with 0, 0, 6 and ends at 9; given the empty batch
    at offset 6 it goes to 1. *)
Lemma cursor_never_decreases_witness :
  Sorted Z.le [0; 0; 6; 6; 9]
  ∧ (fetchUpdates_round (Sample.app false) 0
       (Fetched [Sample.update 3; Sample.update 5])).1 = 5 + 1
  ∧ Sorted Z.le [0; 0; 6; 9]
  ∧ (fetchUpdates2_round Sample.handleUpdates (Sample.app false) 6
       (Fetched [])).1 = 0 + 1.
Proof.
  pose proof (cursor_never_decreases (Sample.app false)
    [ FetchFailed Sample.boom;
      Fetched [Sample.update 3; Sample.update 5];
      Fetched [];
      Fetched [Sample.update 6; Sample.update 8] ] 0 eq_refl)
    as (Hsorted & _ & Hempty & Hbatch & _).
  pose proof (cursor_never_decreases (Sample.app false)
    [ FetchFailed Sample.boom;
      Fetched [Sample.update 3; Sample.update 5];
      Fetched [Sample.update 6; Sample.update 8] ] 0 eq_refl)
    as (_ & Hsecond & _).
  split; [exact Hsorted|]. split; [by apply Hbatch|]. split.
  - exact (Hsecond Sample.handleUpdates
             Sample_handleUpdates_returns_largest_id eq_refl).
  - by apply Hempty.
Defined.

(** ** The router *)

Lemma emitted_events (update : Update) (event : string) (msg : Message) :
  In (Emit event msg) (emit_update update) →
  In event ["text"; "photo"; "document"; "voice"; "audio"; "video";
            "sticker"; "messageEdit"].
Proof.
  unfold emit_update.
  repeat case_match; simpl; intros Hin; destruct_or?; simplify_eq; tauto.
Qed.

(** C3. An update makes the router emit what the priority order text,
    photo, document, voice, audio, video, sticker, edited-message picks
    first among its fields, and nothing when it has none of them, except
    that the edited message is looked at only when the update has neither
    message nor channel post: behind a message with none of the seven
    fields it is not emitted.  At most one event is emitted, and [setup]
    has registered exactly one listener for it. *)
Theorem routing_by_priority (update : Update) :
  emit_update update
  = (if edit_behind_message update then [] else first_match update)
  ∧ (length (emit_update update) ≤ 1)%nat
  ∧ (∀ event msg app tgBot dcBot messageConverter mime_getExtension toLowerCase,
       In (Emit event msg) (emit_update update) →
       length (listeners app tgBot dcBot messageConverter mime_getExtension
                         toLowerCase event)
       = 1%nat).
Proof.
  split; [|split].
  - unfold emit_update, edit_behind_message, first_match, recognized.
    destruct (message update) as [msg|], (channel_post update) as [post|],
      (edited_message update) as [edit|]; simpl; try reflexivity.
    all: try (destruct (text msg), (photo msg), (document msg), (voice msg),
                (audio msg), (video msg), (sticker msg); reflexivity).
    all: destruct (text post), (photo post), (document post), (voice post),
           (audio post), (video post), (sticker post); reflexivity.
  - unfold emit_update. repeat case_match; simpl; lia.
  - intros event msg app tgBot dcBot messageConverter mime_getExtension
      toLowerCase Hin.
    apply emitted_events in Hin. simpl in Hin.
    repeat (destruct Hin as [<-|Hin]; [reflexivity|]). done.
Qed.

(** An update with a message that has none of the seven fields and with
    an edited message: the priority order picks the edit, the router
    emits nothing. *)
Lemma edit_behind_message_is_dropped :
  first_match {| update_id := 1;
                 message := Some (Sample.msg 1 7);
                 channel_post := None;
                 edited_message := Some (Sample.text_msg 2 7 "edited") |}
  = [Emit "messageEdit" (Sample.text_msg 2 7 "edited")]
  ∧ emit_update {| update_id := 1;
                   message := Some (Sample.msg 1 7);
                   channel_post := None;
                   edited_message := Some (Sample.text_msg 2 7 "edited") |}
    = [].
Proof. split; reflexivity. Qed.

(** ** Backlog clearing *)

Lemma ascending_below_last (ids : list Z) (final : Z) :
  ascending ids = true →
  last ids = Some final →
  Forall (λ id, id ≤ final) ids.
Proof.
  induction ids as [|id later IH]; [constructor|].
  destruct later as [|next later'].
  - intros _ [= ->]. repeat constructor. simpl. lia.
  - intros [Hlt Hasc]%andb_true_iff Hlast.
    rewrite last_cons_cons in Hlast.
    specialize (IH Hasc Hlast).
    constructor; [|done].
    apply Forall_cons in IH as [Hnext _]. simpl in *. lia.
Qed.

Section Backlog.

Variable getUpdates : nat → FetchResult.

Lemma clearInitialUpdates_run (n start fuel : nat) (offset : Z) :
  (∀ i, (i < n)%nat → nonempty_batch getUpdates (start + i)) →
  getUpdates (start + n) = Fetched [] →
  (n < fuel)%nat →
  clearInitialUpdates fuel getUpdates start offset
  = Some (Resolved (cleared_offset getUpdates start n offset)).
Proof.
  revert start fuel offset.
  induction n as [|k IH]; intros start fuel offset Hbefore Hempty Hfuel.
  - destruct fuel as [|fuel]; [lia|]. simpl.
    rewrite Nat.add_0_r in Hempty. by rewrite Hempty.
  - destruct fuel as [|fuel]; [lia|]. simpl.
    destruct (Hbefore 0%nat ltac:(lia)) as (updates & newest & Hfirst & Hlast).
    rewrite Nat.add_0_r in Hfirst. rewrite Hfirst, Hlast.
    rewrite (IH (S start) fuel (update_id newest + 1)).
    + f_equal. f_equal. unfold cleared_offset.
      destruct k as [|k'].
      * rewrite Nat.add_0_r, Hfirst. simpl. by rewrite Hlast.
      * destruct (Hbefore (S k') ltac:(lia)) as (later & final & Hlater & Hfinal).
        replace (S start + k')%nat with (start + S k')%nat by lia.
        rewrite Hlater. simpl. by rewrite Hfinal.
    + intros i Hi.
      replace (S start + i)%nat with (start + S i)%nat by lia.
      apply Hbefore. lia.
    + by replace (S start + k)%nat with (start + S k)%nat by lia.
    + lia.
Qed.

Lemma scan_for_empty_batch (j : nat) :
  (∀ i, (i < j)%nat → ∃ updates, getUpdates i = Fetched updates) →
  (∀ i, (i < j)%nat → nonempty_batch getUpdates i)
  ∨ ∃ n, (n < j)%nat ∧ getUpdates n = Fetched []
         ∧ ∀ i, (i < n)%nat → nonempty_batch getUpdates i.
Proof.
  induction j as [|j IH]; intros Hbatches.
  - left. intros i Hi. lia.
  - destruct IH as [Hall|(n & Hn & Hempty & Hbefore)].
    + intros i Hi. apply Hbatches. lia.
    + destruct (Hbatches j ltac:(lia)) as (updates & Hj).
      destruct (last updates) as [newest|] eqn:Hlast.
      * left. intros i Hi.
        destruct (decide (i = j)) as [->|Hne].
        -- by exists updates, newest.
        -- apply Hall. lia.
      * right. exists j. apply last_None in Hlast. subst updates.
        repeat split; [lia|done|done].
    + right. exists n. repeat split; [lia|done|done].
Qed.

Lemma first_empty_batch (m : nat) :
  (∀ i, (i ≤ m)%nat → ∃ updates, getUpdates i = Fetched updates) →
  getUpdates m = Fetched [] →
  ∃ n, (n ≤ m)%nat ∧ getUpdates n = Fetched []
       ∧ ∀ i, (i < n)%nat → nonempty_batch getUpdates i.
Proof.
  intros Hbatches Hempty.
  destruct (scan_for_empty_batch m) as [Hall|(n & Hn & Hnempty & Hbefore)].
  - intros i Hi. apply Hbatches. lia.
  - by exists m.
  - exists n. repeat split; [lia|done|done].
Qed.

Lemma seen_ends_with_final (k : nat) (updates : list Update) (newest : Update) :
  getUpdates k = Fetched updates →
  last updates = Some newest →
  last (seen getUpdates (S k)) = Some (update_id newest).
Proof.
  intros Hbatch Hlast. simpl. rewrite Hbatch, last_app, fmap_last, Hlast.
  reflexivity.
Qed.

(** C7. When the answers of the source up to the [m]-th are batches and
    the [m]-th is empty, backlog clearing returns: for the first empty
    answer, the [n]-th, any recursion depth beyond [n] yields the result.
    It is the initial offset when [n] is 0, and else the id that ends
    the batch before, plus one.  When the ids seen came in strictly
    increasing order, the result is past every one of them. *)
Theorem backlog_clearing_terminates (m : nat) (offset : Z) :
  (∀ i, (i ≤ m)%nat → ∃ updates, getUpdates i = Fetched updates) →
  getUpdates m = Fetched [] →
  ∃ n cleared,
    (n ≤ m)%nat
    ∧ getUpdates n = Fetched []
    ∧ (∀ i, (i < n)%nat → getUpdates i ≠ Fetched [])
    ∧ (∀ fuel, (n < fuel)%nat →
         clearInitialUpdates fuel getUpdates 0 offset = Some (Resolved cleared))
    ∧ match n with
      | O => cleared = offset
      | S k => ∃ final,
          final_update_id (getUpdates k) = Some final ∧ cleared = final + 1
      end
    ∧ (ascending (seen getUpdates n) = true →
         Forall (λ id, id < cleared) (seen getUpdates n)).
Proof.
  intros Hbatches Hempty.
  destruct (first_empty_batch m Hbatches Hempty) as (n & Hn & Hnempty & Hbefore).
  exists n, (cleared_offset getUpdates 0 n offset).
  split; [done|]. split; [done|]. split; [|split; [|split]].
  - intros i Hi Hi'. destruct (Hbefore i Hi) as (updates & newest & Hbatch & Hlast).
    rewrite Hbatch in Hi'. injection Hi' as ->. done.
  - intros fuel Hfuel. by apply clearInitialUpdates_run.
  - destruct n as [|k]; [done|].
    destruct (Hbefore k ltac:(lia)) as (updates & newest & Hbatch & Hlast).
    exists (update_id newest). unfold cleared_offset. simpl.
    rewrite Hbatch. simpl. by rewrite Hlast.
  - intros Hasc. destruct n as [|k]; [constructor|].
    destruct (Hbefore k ltac:(lia)) as (updates & newest & Hbatch & Hlast).
    pose proof (seen_ends_with_final k updates newest Hbatch Hlast) as Hend.
    pose proof (ascending_below_last _ _ Hasc Hend) as Hbelow.
    unfold cleared_offset. simpl Nat.add. rewrite Hbatch. simpl. rewrite Hlast.
    simpl. eapply Forall_impl; [exact Hbelow|]. intros id Hid. simpl in Hid. lia.
Qed.

End Backlog.

(** A source that hands out update 5, then update 3, then nothing: clearing
    ends at 4, which is not past the 5 it saw. *)
Lemma backlog_clearing_behind_seen_update :
  clearInitialUpdates 3 Sample.stale_script 0 0 = Some (Resolved 4)
  ∧ seen Sample.stale_script 2 = [5; 3]
  ∧ ¬ Forall (λ id, id < 4) (seen Sample.stale_script 2).
Proof.
  split; [reflexivity|split; [reflexivity|]].
  intros Hall. change (seen Sample.stale_script 2) with [5; 3] in Hall.
  apply Forall_cons in Hall as [Hlt _]. simpl in Hlt. lia.
Qed.

Lemma backlog_clearing_terminates_witness :
  ∃ n cleared,
    (n ≤ 2)%nat
    ∧ Sample.backlog_script n = Fetched []
    ∧ (∀ i, (i < n)%nat → Sample.backlog_script i ≠ Fetched [])
    ∧ (∀ fuel, (n < fuel)%nat →
         clearInitialUpdates fuel Sample.backlog_script 0 0
         = Some (Resolved cleared))
    ∧ match n with
      | O => cleared = 0
      | S k => ∃ final,
          final_update_id (Sample.backlog_script k) = Some final
          ∧ cleared = final + 1
      end
    ∧ (ascending (seen Sample.backlog_script n) = true →
         Forall (λ id, id < cleared) (seen Sample.backlog_script n)).
Proof.
  apply (backlog_clearing_terminates Sample.backlog_script 2 0).
  - intros [|[|[|i]]] Hi; [by eexists..|lia].
  - reflexivity.
Defined.

(** * Further properties *)

(** ** More on the file sender *)

Lemma append_cons (c : ascii) (s t : string) :
  String c s +:+ t = String c (s +:+ t).
Proof. reflexivity. Qed.

Lemma split_dot_dotless (s : string) :
  dotless s = true → Js.split_dot s = [s].
Proof.
  induction s as [|c s IH]; [done|].
  simpl. intros [Hc Hs]%andb_true_iff.
  apply negb_true_iff in Hc. rewrite Hc, (IH Hs). reflexivity.
Qed.

Lemma split_dot_ends_with (prefix ext : string) :
  dotless ext = true →
  ∃ first pieces,
    Js.split_dot (prefix +:+ "." +:+ ext) = first :: pieces ++ [ext].
Proof.
  intros Hext. induction prefix as [|c prefix IH].
  - exists "", []. change ("" +:+ "." +:+ ext) with (String "."%char ext).
    simpl. by rewrite split_dot_dotless.
  - destruct IH as (first & pieces & IH).
    rewrite append_cons. simpl. rewrite IH.
    destruct (Ascii.eqb c "."%char).
    + by exists "", (first :: pieces).
    + by exists (String c first), pieces.
Qed.

Lemma pop_after_last_dot (prefix ext : string) :
  dotless ext = true →
  Js.pop (Js.split_dot (prefix +:+ "." +:+ ext)) = Some ext.
Proof.
  intros Hext.
  destruct (split_dot_ends_with prefix ext Hext) as (first & pieces & ->).
  unfold Js.pop. by rewrite app_comm_cons, last_snoc.
Qed.

Section Sender.

Variable tgBot : TgBot.
Variable dcBot : DcBot.
Variable messageConverter : Message → Completion MessageObj.

(** X1. The file sender asks Telegram for the file, then for its stream,
    then sends to Discord, in this order, each at most once and none
    without the one before; the send carries the text made of what the
    converter returned, and an attachment; the message map is left as it
    was. *)
Theorem sender_call_sequence (args : SendFile.Args) map :
  map_of (makeFileSender tgBot dcBot messageConverter args map) = map
  ∧ (calls_of (makeFileSender tgBot dcBot messageConverter args map) = []
     ∨ calls_of (makeFileSender tgBot dcBot messageConverter args map)
       = [TgGetFile (SendFile.fileId args)]
     ∨ (∃ file,
          calls_of (makeFileSender tgBot dcBot messageConverter args map)
          = [TgGetFile (SendFile.fileId args); TgHelperGetFileStream file])
     ∨ (∃ messageObj file sent,
          messageConverter (SendFile.message args) = Returned messageObj
          ∧ calls_of (makeFileSender tgBot dcBot messageConverter args map)
            = [TgGetFile (SendFile.fileId args); TgHelperGetFileStream file;
               DcSend (SendFile.discordChannel args)
                      (textToSend messageObj args) (Some sent)])).
Proof.
  unfold makeFileSender, calls_of, map_of, bind, await, call, invoke, field,
    ret, throw, never.
  repeat (case_match; simplify_eq/=); split; try done; eauto 10.
Qed.

(** X2. The conversion comes first: if it throws, the sender is rejected
    with what it threw, whatever Discord is up to.  If it returns, the
    sender waits for Discord: when [dcBot.ready] is rejected or still
    pending, so is the sender.  Either way, until Discord is ready the
    sender asks nothing of anybody, of Telegram either. *)
Theorem nothing_downloaded_until_discord_ready (args : SendFile.Args) map :
  (∀ thrown,
     messageConverter (SendFile.message args) = Thrown thrown →
     makeFileSender tgBot dcBot messageConverter args map
     = (Rejected thrown, map, []))
  ∧ (ready dcBot ≠ Resolved tt →
     makeFileSender tgBot dcBot messageConverter args map
     = (match messageConverter (SendFile.message args) with
        | Thrown thrown => Rejected thrown
        | Returned _ =>
            match ready dcBot with
            | Rejected err => Rejected err
            | _ => Pending
            end
        end, map, [])).
Proof.
  split; [intros thrown; apply makeFileSender_throws|].
  intros Hready.
  unfold makeFileSender, bind, await, invoke, ret, throw.
  destruct (messageConverter (SendFile.message args)) as [messageObj|thrown];
    [|done].
  simpl. destruct (ready dcBot) as [[]|err|]; done.
Qed.

(** X3. A download that does not end, or a channel Discord does not know,
    leaves the relay hanging after both Telegram calls: nothing is sent to
    Discord, and the handler around the sender neither returns nor logs.
    This is so once the message is converted; if the conversion throws,
    the sender is rejected before any call, and the handler logs that. *)
Theorem unfinished_relay_hangs_silently (args : SendFile.Args) (file : File)
    (stream : FileStream) (failure : string) (msg : Message)
    (bridge : Bridge) map :
  ready dcBot = Resolved tt →
  getFile tgBot (SendFile.fileId args) = Resolved file →
  (default false (SendFile.resolveExtension args) = true →
   is_Some (file_path file)) →
  helperGetFileStream tgBot file = Resolved stream →
  ends stream = false ∨ SendFile.discordChannel args ∉ channels dcBot →
  makeFileSender tgBot dcBot messageConverter args map
  = match messageConverter (SendFile.message args) with
    | Returned _ =>
        (Pending, map,
         [TgGetFile (SendFile.fileId args); TgHelperGetFileStream file])
    | Thrown thrown => (Rejected thrown, map, [])
    end
  ∧ file_handler tgBot dcBot messageConverter (λ _ _, ret args) failure
                 msg bridge map
    = match messageConverter (SendFile.message args) with
      | Returned _ =>
          (Pending, map,
           [TgGetFile (SendFile.fileId args); TgHelperGetFileStream file])
      | Thrown thrown =>
          (Resolved tt, map, [LoggerError (tag bridge failure) (ArgErr thrown)])
      end.
Proof.
  intros Hready Hfile Hpath Hstream Hwhy.
  destruct (messageConverter (SendFile.message args))
    as [messageObj|thrown] eqn:Hconverted.
  - assert (makeFileSender tgBot dcBot messageConverter args map
            = (Pending, map,
               [TgGetFile (SendFile.fileId args); TgHelperGetFileStream file]))
      as Hsender.
    { unfold makeFileSender, bind, await, call, invoke, field, ret, never.
      rewrite Hconverted, Hready, Hfile. simpl.
      destruct (default false (SendFile.resolveExtension args)).
      - destruct (Hpath eq_refl) as [path ->]. simpl. rewrite Hstream. simpl.
        destruct Hwhy as [->|Hchan]; [done|].
        destruct (ends stream); [|done].
        by rewrite bool_decide_eq_false_2.
      - simpl. rewrite Hstream. simpl.
        destruct Hwhy as [->|Hchan]; [done|].
        destruct (ends stream); [|done].
        by rewrite bool_decide_eq_false_2. }
    split; [done|].
    unfold file_handler, sendFile, try_catch, bind, ret.
    by rewrite Hsender.
  - pose proof (makeFileSender_throws tgBot dcBot messageConverter args thrown
                  map Hconverted) as Hsender.
    split; [done|].
    unfold file_handler, sendFile, try_catch, bind, ret, logger_error, call.
    by rewrite Hsender.
Qed.

(** X4. When the extension is to be resolved, what is appended to the file
    name is the dot and what follows the last dot of the file's path. *)
Theorem extension_is_suffix_after_last_dot (args : SendFile.Args) (file : File)
    (stream : FileStream) (prefix ext : string) map :
  ready dcBot = Resolved tt →
  getFile tgBot (SendFile.fileId args) = Resolved file →
  SendFile.resolveExtension args = Some true →
  file_path file = Some (prefix +:+ "." +:+ ext) →
  dotless ext = true →
  helperGetFileStream tgBot file = Resolved stream →
  ends stream = true →
  SendFile.discordChannel args ∈ channels dcBot →
  calls_of (makeFileSender tgBot dcBot messageConverter args map) =
    match messageConverter (SendFile.message args) with
    | Returned messageObj =>
        [ TgGetFile (SendFile.fileId args);
          TgHelperGetFileStream file;
          DcSend (SendFile.discordChannel args)
                 (textToSend messageObj args)
                 (Some {| attachment := concat (chunks stream);
                          attachment_name :=
                            Js.str (SendFile.fileName args) +:+ "." +:+ ext |}) ]
    | Thrown _ => []
    end.
Proof.
  intros Hready Hfile Hresolve Hpath Hext Hstream Hends Hchan.
  destruct (messageConverter (SendFile.message args))
    as [messageObj|thrown] eqn:Hconverted;
    [|by rewrite (makeFileSender_throws tgBot dcBot messageConverter args thrown)].
  apply makeFileSender_calls; try done.
  rewrite Hresolve. simpl. eexists. split; [exact Hpath|].
  by rewrite pop_after_last_dot.
Qed.

(** X5. A path without any dot is appended whole, after a dot: the file
    sender does not tell a path without extension from an extension. *)
Theorem path_without_dot_is_appended_whole (args : SendFile.Args) (file : File)
    (stream : FileStream) (path : string) map :
  ready dcBot = Resolved tt →
  getFile tgBot (SendFile.fileId args) = Resolved file →
  SendFile.resolveExtension args = Some true →
  file_path file = Some path →
  dotless path = true →
  helperGetFileStream tgBot file = Resolved stream →
  ends stream = true →
  SendFile.discordChannel args ∈ channels dcBot →
  calls_of (makeFileSender tgBot dcBot messageConverter args map) =
    match messageConverter (SendFile.message args) with
    | Returned messageObj =>
        [ TgGetFile (SendFile.fileId args);
          TgHelperGetFileStream file;
          DcSend (SendFile.discordChannel args)
                 (textToSend messageObj args)
                 (Some {| attachment := concat (chunks stream);
                          attachment_name :=
                            Js.str (SendFile.fileName args) +:+ "." +:+ path |}) ]
    | Thrown _ => []
    end.
Proof.
  intros Hready Hfile Hresolve Hpath Hdotless Hstream Hends Hchan.
  destruct (messageConverter (SendFile.message args))
    as [messageObj|thrown] eqn:Hconverted;
    [|by rewrite (makeFileSender_throws tgBot dcBot messageConverter args thrown)].
  apply makeFileSender_calls; try done.
  rewrite Hresolve. simpl. eexists. split; [exact Hpath|].
  by rewrite split_dot_dotless.
Qed.

(** X6. When the extension is to be resolved and Telegram gives the file
    without a path, the sender is rejected with a [TypeError] right after
    [getFile]: the stream is not asked for and nothing is sent, and the
    handler around the sender logs this once.  When the extension is not
    to be resolved, the path is not looked at.  (If the conversion of the
    message throws, the file is not even asked for, and that is what the
    handler logs.) *)
Theorem missing_file_path_stops_the_relay (args : SendFile.Args)
    (failure : string) (msg : Message) (bridge : Bridge) map :
  ready dcBot = Resolved tt →
  getFile tgBot (SendFile.fileId args) = Resolved {| file_path := None |} →
  (SendFile.resolveExtension args = Some true →
   file_handler tgBot dcBot messageConverter (λ _ _, ret args) failure
                msg bridge map
   = match messageConverter (SendFile.message args) with
     | Returned _ =>
         (Resolved tt, map,
          [TgGetFile (SendFile.fileId args);
           LoggerError (tag bridge failure) (ArgErr (TypeError "file_path"))])
     | Thrown thrown =>
         (Resolved tt, map, [LoggerError (tag bridge failure) (ArgErr thrown)])
     end)
  ∧ (default false (SendFile.resolveExtension args) = false →
     ∀ stream,
       helperGetFileStream tgBot {| file_path := None |} = Resolved stream →
       ends stream = true →
       SendFile.discordChannel args ∈ channels dcBot →
       filter (λ c, is_destination_call c = true)
              (calls_of (makeFileSender tgBot dcBot messageConverter args map))
       = match messageConverter (SendFile.message args) with
         | Returned messageObj =>
             [DcSend (SendFile.discordChannel args)
                     (textToSend messageObj args)
                     (Some {| attachment := concat (chunks stream);
                              attachment_name :=
                                Js.str (SendFile.fileName args) |})]
         | Thrown _ => []
         end).
Proof.
  intros Hready Hfile. split.
  - intros Hresolve.
    unfold file_handler, sendFile, makeFileSender, try_catch, bind, await,
      call, invoke, field, ret, throw, logger_error.
    destruct (messageConverter (SendFile.message args))
      as [messageObj|thrown]; [|done].
    simpl. rewrite Hready, Hfile, Hresolve. reflexivity.
  - intros Hresolve stream Hstream Hends Hchan.
    destruct (messageConverter (SendFile.message args))
      as [messageObj|thrown] eqn:Hconverted;
      [|by rewrite (makeFileSender_throws tgBot dcBot messageConverter args
                      thrown)].
    rewrite (makeFileSender_calls tgBot dcBot messageConverter args messageObj
               {| file_path := None |} stream ""); try done.
    + simpl. by rewrite append_empty_r.
    + by rewrite Hresolve.
Qed.

End Sender.

(** ** More on the handlers *)

Section MoreHandlers.

Variable app : Application.
Variable tgBot : TgBot.
Variable dcBot : DcBot.
Variable messageConverter : Message → Completion MessageObj.
Variable mime_getExtension : option string → option string.

(** A file handler whose job is built and whose download succeeds: the
    three calls, and a log line if and only if Discord refuses. *)
Lemma file_handler_relays (args : Message → Bridge → M SendFile.Args)
    (failure : string) (msg : Message) (bridge : Bridge) (job : SendFile.Args)
    (messageObj : MessageObj)
    (file : File) (stream : FileStream) (extension : string) map :
  args msg bridge map = (Resolved job, map, []) →
  messageConverter (SendFile.message job) = Returned messageObj →
  ready dcBot = Resolved tt →
  getFile tgBot (SendFile.fileId job) = Resolved file →
  (if default false (SendFile.resolveExtension job)
   then ∃ path, file_path file = Some path
                ∧ extension = "." +:+ Js.str (Js.pop (Js.split_dot path))
   else extension = "") →
  helperGetFileStream tgBot file = Resolved stream →
  ends stream = true →
  SendFile.discordChannel job ∈ channels dcBot →
  let upload :=
    Some {| attachment := concat (chunks stream);
            attachment_name := Js.str (SendFile.fileName job) +:+ extension |} in
  file_handler tgBot dcBot messageConverter args failure msg bridge map
  = (match channel_send dcBot (SendFile.discordChannel job)
                        (textToSend messageObj job) upload with
     | Pending => Pending
     | _ => Resolved tt
     end,
     map,
     [ TgGetFile (SendFile.fileId job);
       TgHelperGetFileStream file;
       DcSend (SendFile.discordChannel job) (textToSend messageObj job)
              upload ]
     ++ match channel_send dcBot (SendFile.discordChannel job)
                           (textToSend messageObj job) upload with
        | Rejected err => [LoggerError (tag bridge failure) (ArgErr err)]
        | _ => []
        end).
Proof.
  intros Hargs Hconverted Hready Hfile Hext Hstream Hends Hchan upload.
  subst upload.
  unfold file_handler, sendFile, makeFileSender, try_catch, bind, await, call,
    invoke, field, ret, logger_error.
  rewrite Hargs. simpl. rewrite Hconverted, Hready, Hfile. simpl.
  destruct (default false (SendFile.resolveExtension job)).
  - destruct Hext as (path & Hpath & ->). rewrite Hpath. simpl.
    rewrite Hstream, Hends. simpl.
    rewrite bool_decide_eq_true_2 by done. simpl.
    rewrite push_all. simpl.
    by destruct (channel_send dcBot _ _ _).
  - subst extension. simpl. rewrite Hstream, Hends. simpl.
    rewrite bool_decide_eq_true_2 by done. simpl.
    rewrite push_all. simpl.
    by destruct (channel_send dcBot _ _ _).
Qed.

(** What the converter throws inside the file sender is caught by the
    handler and logged, before anything is asked of Telegram. *)
Lemma file_handler_catches (args : Message → Bridge → M SendFile.Args)
    (failure : string) (msg : Message) (bridge : Bridge) (job : SendFile.Args)
    (thrown : Err) map :
  args msg bridge map = (Resolved job, map, []) →
  messageConverter (SendFile.message job) = Thrown thrown →
  file_handler tgBot dcBot messageConverter args failure msg bridge map
  = (Resolved tt, map, [LoggerError (tag bridge failure) (ArgErr thrown)]).
Proof.
  intros Hargs Hthrown.
  unfold file_handler, sendFile, makeFileSender, try_catch, bind, invoke,
    throw, logger_error, call, ret.
  rewrite Hargs. simpl. rewrite Hthrown. reflexivity.
Qed.

(** X7. Of the handlers only the text handler lets an error out, and only
    that of its conversion, which stands before its [try]: it ends
    rejected exactly when the converter throws, with what was thrown and
    having done nothing.  The edit handler and every file handler,
    whatever builds its job, end resolved or stay pending, never rejected:
    what the converter throws inside the file sender is caught and logged
    like any other error, under the handler's heading. *)
Theorem handlers_reject_only_on_text_conversion (msg : Message)
    (bridge : Bridge) map
    (args : Message → Bridge → M SendFile.Args) (failure : string) (err : Err) :
  ((text_handler dcBot messageConverter msg bridge map).1.1 = Rejected err
   ↔ messageConverter msg = Thrown err)
  ∧ (messageConverter msg = Thrown err →
     text_handler dcBot messageConverter msg bridge map
     = (Rejected err, map, []))
  ∧ (messageEdit_handler dcBot messageConverter msg bridge map).1.1
    ≠ Rejected err
  ∧ (file_handler tgBot dcBot messageConverter args failure msg bridge map).1.1
    ≠ Rejected err
  ∧ (∀ job,
       args msg bridge map = (Resolved job, map, []) →
       messageConverter (SendFile.message job) = Thrown err →
       file_handler tgBot dcBot messageConverter args failure msg bridge map
       = (Resolved tt, map, [LoggerError (tag bridge failure) (ArgErr err)])).
Proof.
  repeat apply conj.
  - unfold text_handler, try_catch, bind, await, channels_get, call,
      logger_error, messageMap_insert, invoke, ret, throw.
    destruct (messageConverter msg) as [messageObj|thrown]; simpl;
      [|by intros [= ->]].
    repeat (case_match; simplify_eq/=); done.
  - unfold text_handler, bind, invoke, throw.
    destruct (messageConverter msg) as [messageObj|thrown]; simpl;
      [done|by intros [= ->]].
  - unfold text_handler, bind, invoke, throw. by intros ->.
  - unfold messageEdit_handler, try_catch, bind, await, channels_get, call,
      logger_error, messageMap_getCorresponding, invoke, ret, throw.
    repeat (case_match; simplify_eq/=); done.
  - unfold file_handler, try_catch, bind, logger_error, call, ret.
    destruct (args msg bridge map) as [[[job|e|] map1] calls1]; simpl; try done.
    destruct (sendFile tgBot dcBot messageConverter job map1)
      as [[[sent|e|] map2] calls2]; simpl; done.
  - intros job Hargs Hthrown.
    by apply (file_handler_catches args failure msg bridge job err map).
Qed.

(** X8. A sticker without a thumbnail and a photo without any size are not
    relayed: the handler logs the [TypeError] and asks nothing of Telegram
    or Discord. *)
Theorem payload_without_file_is_only_logged (msg : Message) (bridge : Bridge)
    map :
  (∀ st, sticker msg = Some st → thumb st = None →
     ∃ err,
       sticker_handler app tgBot dcBot messageConverter msg bridge map
       = (Resolved tt, map,
          [LoggerError (tag bridge " Could not send sticker") (ArgErr err)]))
  ∧ (photo msg = Some [] →
     ∃ err,
       photo_handler tgBot dcBot messageConverter msg bridge map
       = (Resolved tt, map,
          [LoggerError (tag bridge " Could not send photo") (ArgErr err)])).
Proof.
  split.
  - intros st Hsticker Hthumb. eexists.
    unfold sticker_handler, file_handler, sticker_args, try_catch, bind, field,
      throw, ret, logger_error, call.
    rewrite Hsticker. simpl. rewrite Hthumb. reflexivity.
  - intros Hphoto. eexists.
    unfold photo_handler, file_handler, photo_args, try_catch, bind, field,
      throw, ret, logger_error, call.
    rewrite Hphoto. reflexivity.
Qed.

(** X9. Only photos carry their caption over.  The jobs of documents,
    voice messages, audio and video have none, whatever caption the message
    has: the text sent with the file ends after the sender's name.  The job
    of a photo has the caption of the message.  Each job is for the message
    itself, so that the name is that of its sender. *)
Theorem message_caption_only_for_photos (msg : Message) (bridge : Bridge) map
    (job : SendFile.Args) :
  (document_args msg bridge map = (Resolved job, map, [])
   ∨ voice_args mime_getExtension msg bridge map = (Resolved job, map, [])
   ∨ audio_args msg bridge map = (Resolved job, map, [])
   ∨ video_args mime_getExtension msg bridge map = (Resolved job, map, []) →
   SendFile.caption job = None
   ∧ SendFile.message job = msg
   ∧ ∀ messageObj,
       textToSend messageObj job
       = "**" +:+ from messageObj +:+ "**:" +:+ Js.newline +:+ "")
  ∧ (photo_args msg bridge map = (Resolved job, map, []) →
     SendFile.caption job = caption msg
     ∧ SendFile.message job = msg
     ∧ ∀ messageObj,
         textToSend messageObj job
         = "**" +:+ from messageObj +:+ "**:" +:+ Js.newline
           +:+ default "" (caption msg)).
Proof.
  split.
  - unfold document_args, voice_args, audio_args, video_args, bind, field, ret,
      throw.
    intros [H|[H|[H|H]]]; repeat (case_match; simplify_eq/=); done.
  - unfold photo_args, bind, field, ret, throw.
    intros H; repeat (case_match; simplify_eq/=); done.
Qed.

(** X10. A file relay that gets as far as the upload makes its three calls
    in order and ends with Discord's answer: resolved without a word when
    Discord accepts, resolved after one log line under the handler's own
    heading when Discord refuses, pending while Discord does not answer.
    It gets that far once the message is converted; if the conversion
    throws, that is logged and no call is made. *)
Theorem relay_logs_only_a_refusal (args : Message → Bridge → M SendFile.Args)
    (failure : string) (msg : Message) (bridge : Bridge) (job : SendFile.Args)
    (file : File) (stream : FileStream) map :
  args msg bridge map = (Resolved job, map, []) →
  ready dcBot = Resolved tt →
  getFile tgBot (SendFile.fileId job) = Resolved file →
  default false (SendFile.resolveExtension job) = false →
  helperGetFileStream tgBot file = Resolved stream →
  ends stream = true →
  SendFile.discordChannel job ∈ channels dcBot →
  let upload :=
    Some {| attachment := concat (chunks stream);
            attachment_name := Js.str (SendFile.fileName job) |} in
  file_handler tgBot dcBot messageConverter args failure msg bridge map
  = match messageConverter (SendFile.message job) with
    | Returned messageObj =>
        let sent :=
          DcSend (SendFile.discordChannel job) (textToSend messageObj job)
                 upload in
        match channel_send dcBot (SendFile.discordChannel job)
                           (textToSend messageObj job) upload with
        | Resolved _ =>
            (Resolved tt, map,
             [TgGetFile (SendFile.fileId job); TgHelperGetFileStream file;
              sent])
        | Rejected err =>
            (Resolved tt, map,
             [TgGetFile (SendFile.fileId job); TgHelperGetFileStream file;
              sent; LoggerError (tag bridge failure) (ArgErr err)])
        | Pending =>
            (Pending, map,
             [TgGetFile (SendFile.fileId job); TgHelperGetFileStream file;
              sent])
        end
    | Thrown thrown =>
        (Resolved tt, map, [LoggerError (tag bridge failure) (ArgErr thrown)])
    end.
Proof.
  intros Hargs Hready Hfile Hresolve Hstream Hends Hchan upload.
  subst upload.
  destruct (messageConverter (SendFile.message job))
    as [messageObj|thrown] eqn:Hconverted;
    [|by apply (file_handler_catches args failure msg bridge job thrown map)].
  rewrite (file_handler_relays args failure msg bridge job messageObj file
             stream "" map); try done.
  - rewrite append_empty_r. cbn zeta.
    by destruct (channel_send dcBot _ _ _).
  - by rewrite Hresolve.
Qed.

(** X11. A document that comes without a file name is sent to Discord under
    the name [undefined]. *)
Theorem document_without_name_is_sent_as_undefined (msg : Message)
    (bridge : Bridge) (doc : Document) (file : File) (stream : FileStream) map :
  document msg = Some doc →
  file_name doc = None →
  ready dcBot = Resolved tt →
  getFile tgBot (document_file_id doc) = Resolved file →
  helperGetFileStream tgBot file = Resolved stream →
  ends stream = true →
  discord_channel bridge ∈ channels dcBot →
  filter (λ c, is_destination_call c = true)
         (calls_of (document_handler tgBot dcBot messageConverter msg bridge map))
  = match messageConverter msg with
    | Returned messageObj =>
        [DcSend (discord_channel bridge)
                ("**" +:+ from messageObj +:+ "**:" +:+ Js.newline +:+ "")
                (Some {| attachment := concat (chunks stream);
                         attachment_name := "undefined" |})]
    | Thrown _ => []
    end.
Proof.
  intros Hdoc Hname Hready Hfile Hstream Hends Hchan.
  unfold document_handler.
  assert (document_args msg bridge map
          = (Resolved {| SendFile.discordChannel := discord_channel bridge;
                         SendFile.message := msg;
                         SendFile.fileId := document_file_id doc;
                         SendFile.fileName := None;
                         SendFile.caption := None;
                         SendFile.resolveExtension := Some false |}, map, []))
    as Hjob.
  { unfold document_args, bind, field, ret. rewrite Hdoc. simpl.
    by rewrite Hname. }
  destruct (messageConverter msg) as [messageObj|thrown] eqn:Hconverted.
  - rewrite (file_handler_relays document_args " Could not send document" msg
               bridge _ messageObj file stream "" map Hjob); try done.
    unfold calls_of. simpl. by destruct (channel_send dcBot _ _ _).
  - by rewrite (file_handler_catches document_args " Could not send document"
                  msg bridge _ thrown map Hjob).
Qed.

(** X12. A voice message or a video whose MIME type the [mime] library has
    no extension for is sent under the name [voice.null], resp.
    [video.null]. *)
Theorem unknown_mime_type_gives_null_extension (msg : Message)
    (bridge : Bridge) (file : File) (stream : FileStream) map :
  ready dcBot = Resolved tt →
  helperGetFileStream tgBot file = Resolved stream →
  ends stream = true →
  discord_channel bridge ∈ channels dcBot →
  (∀ v, voice msg = Some v →
     mime_getExtension (voice_mime_type v) = None →
     getFile tgBot (voice_file_id v) = Resolved file →
     filter (λ c, is_destination_call c = true)
            (calls_of (voice_handler tgBot dcBot messageConverter
                                     mime_getExtension msg bridge map))
     = match messageConverter msg with
       | Returned messageObj =>
           [DcSend (discord_channel bridge)
                   ("**" +:+ from messageObj +:+ "**:" +:+ Js.newline +:+ "")
                   (Some {| attachment := concat (chunks stream);
                            attachment_name := "voice.null" |})]
       | Thrown _ => []
       end)
  ∧ (∀ v, video msg = Some v →
       mime_getExtension (video_mime_type v) = None →
       getFile tgBot (video_file_id v) = Resolved file →
       filter (λ c, is_destination_call c = true)
              (calls_of (video_handler tgBot dcBot messageConverter
                                       mime_getExtension msg bridge map))
       = match messageConverter msg with
         | Returned messageObj =>
             [DcSend (discord_channel bridge)
                     ("**" +:+ from messageObj +:+ "**:" +:+ Js.newline +:+ "")
                     (Some {| attachment := concat (chunks stream);
                              attachment_name := "video.null" |})]
         | Thrown _ => []
         end).
Proof.
  intros Hready Hstream Hends Hchan. split.
  - intros v Hvoice Hmime Hfile.
    unfold voice_handler.
    assert (voice_args mime_getExtension msg bridge map
            = (Resolved {| SendFile.discordChannel := discord_channel bridge;
                           SendFile.message := msg;
                           SendFile.fileId := voice_file_id v;
                           SendFile.fileName := Some "voice.null";
                           SendFile.caption := None;
                           SendFile.resolveExtension := Some false |}, map, []))
      as Hjob.
    { unfold voice_args, bind, field, ret. rewrite Hvoice. simpl.
      by rewrite Hmime. }
    destruct (messageConverter msg) as [messageObj|thrown] eqn:Hconverted.
    + rewrite (file_handler_relays (voice_args mime_getExtension)
                 " Could not send voice" msg bridge _ messageObj file stream ""
                 map Hjob); try done.
      unfold calls_of. simpl. by destruct (channel_send dcBot _ _ _).
    + by rewrite (file_handler_catches (voice_args mime_getExtension)
                    " Could not send voice" msg bridge _ thrown map Hjob).
  - intros v Hvideo Hmime Hfile.
    unfold video_handler.
    assert (video_args mime_getExtension msg bridge map
            = (Resolved {| SendFile.discordChannel := discord_channel bridge;
                           SendFile.message := msg;
                           SendFile.fileId := video_file_id v;
                           SendFile.fileName := Some "video.null";
                           SendFile.caption := None;
                           SendFile.resolveExtension := Some false |}, map, []))
      as Hjob.
    { unfold video_args, bind, field, ret. rewrite Hvideo. simpl.
      by rewrite Hmime. }
    destruct (messageConverter msg) as [messageObj|thrown] eqn:Hconverted.
    + rewrite (file_handler_relays (video_args mime_getExtension)
                 " Could not send video" msg bridge _ messageObj file stream ""
                 map Hjob); try done.
      unfold calls_of. simpl. by destruct (channel_send dcBot _ _ _).
    + by rewrite (file_handler_catches (video_args mime_getExtension)
                    " Could not send video" msg bridge _ thrown map Hjob).
Qed.

(** X13. An audio file is sent under its title followed by the dot and what
    follows the last dot of the path Telegram keeps it at; the largest
    size of a photo, the last of the list, is the one sent, as
    [photo.jpg] and with the caption of the message. *)
Theorem audio_and_photo_jobs (msg : Message) (bridge : Bridge) (file : File)
    (stream : FileStream) map :
  ready dcBot = Resolved tt →
  helperGetFileStream tgBot file = Resolved stream →
  ends stream = true →
  discord_channel bridge ∈ channels dcBot →
  (∀ a prefix ext,
     audio msg = Some a →
     getFile tgBot (audio_file_id a) = Resolved file →
     file_path file = Some (prefix +:+ "." +:+ ext) →
     dotless ext = true →
     filter (λ c, is_destination_call c = true)
            (calls_of (audio_handler tgBot dcBot messageConverter msg bridge map))
     = match messageConverter msg with
       | Returned messageObj =>
           [DcSend (discord_channel bridge)
                   ("**" +:+ from messageObj +:+ "**:" +:+ Js.newline +:+ "")
                   (Some {| attachment := concat (chunks stream);
                            attachment_name :=
                              Js.str (title a) +:+ "." +:+ ext |})]
       | Thrown _ => []
       end)
  ∧ (∀ sizes largest,
       photo msg = Some sizes →
       last sizes = Some largest →
       getFile tgBot (photo_file_id largest) = Resolved file →
       calls_of (photo_handler tgBot dcBot messageConverter msg bridge map)
       = match messageConverter msg with
         | Returned messageObj =>
             [TgGetFile (photo_file_id largest);
              TgHelperGetFileStream file;
              DcSend (discord_channel bridge)
                     ("**" +:+ from messageObj +:+ "**:" +:+ Js.newline
                      +:+ default "" (caption msg))
                     (Some {| attachment := concat (chunks stream);
                              attachment_name := "photo.jpg" |})]
             ++ match channel_send dcBot (discord_channel bridge)
                       ("**" +:+ from messageObj +:+ "**:" +:+ Js.newline
                        +:+ default "" (caption msg))
                       (Some {| attachment := concat (chunks stream);
                                attachment_name := "photo.jpg" |}) with
                | Rejected err =>
                    [LoggerError (tag bridge " Could not send photo")
                                 (ArgErr err)]
                | _ => []
                end
         | Thrown thrown =>
             [LoggerError (tag bridge " Could not send photo") (ArgErr thrown)]
         end).
Proof.
  intros Hready Hstream Hends Hchan. split.
  - intros a prefix ext Haudio Hfile Hpath Hext.
    unfold audio_handler.
    assert (audio_args msg bridge map
            = (Resolved {| SendFile.discordChannel := discord_channel bridge;
                           SendFile.message := msg;
                           SendFile.fileId := audio_file_id a;
                           SendFile.fileName := title a;
                           SendFile.caption := None;
                           SendFile.resolveExtension := Some true |}, map, []))
      as Hjob.
    { unfold audio_args, bind, field, ret. by rewrite Haudio. }
    destruct (messageConverter msg) as [messageObj|thrown] eqn:Hconverted.
    + rewrite (file_handler_relays audio_args " Could not send audio" msg
                 bridge _ messageObj file stream ("." +:+ ext) map Hjob);
        try done.
      * unfold calls_of. simpl. by destruct (channel_send dcBot _ _ _).
      * simpl. eexists. split; [exact Hpath|]. by rewrite pop_after_last_dot.
    + by rewrite (file_handler_catches audio_args " Could not send audio" msg
                    bridge _ thrown map Hjob).
  - intros sizes largest Hphoto Hlast Hfile.
    unfold photo_handler.
    assert (photo_args msg bridge map
            = (Resolved {| SendFile.discordChannel := discord_channel bridge;
                           SendFile.message := msg;
                           SendFile.fileId := photo_file_id largest;
                           SendFile.fileName := Some "photo.jpg";
                           SendFile.caption := caption msg;
                           SendFile.resolveExtension := None |}, map, []))
      as Hjob.
    { unfold photo_args, bind, field, ret. rewrite Hphoto. simpl.
      by rewrite Hlast. }
    destruct (messageConverter msg) as [messageObj|thrown] eqn:Hconverted.
    + by rewrite (file_handler_relays photo_args " Could not send photo" msg
                    bridge _ messageObj file stream "" map Hjob).
    + by rewrite (file_handler_catches photo_args " Could not send photo" msg
                    bridge _ thrown map Hjob).
Qed.

(** X14. The text handler sends to Discord at most once, the converted
    text without any file, and only when the conversion has returned and
    Discord is ready and knows the channel of the bridge; it never asks
    anything of Telegram. *)
Theorem text_is_sent_at_most_once (msg : Message) (bridge : Bridge) map :
  filter (λ c, is_telegram_call c = true)
         (calls_of (text_handler dcBot messageConverter msg bridge map)) = []
  ∧ (filter (λ c, is_destination_call c = true)
            (calls_of (text_handler dcBot messageConverter msg bridge map)) = []
     ∨ (ready dcBot = Resolved tt
        ∧ discord_channel bridge ∈ channels dcBot
        ∧ ∃ messageObj,
            messageConverter msg = Returned messageObj
            ∧ filter (λ c, is_destination_call c = true)
                     (calls_of (text_handler dcBot messageConverter msg bridge map))
              = [DcSend (discord_channel bridge) (composed messageObj) None])).
Proof.
  unfold text_handler, try_catch, bind, await, channels_get, call,
    logger_error, messageMap_insert, invoke, ret, throw, calls_of.
  destruct (messageConverter msg) as [messageObj|thrown]; simpl;
    [|by split; [|left]].
  destruct (ready dcBot) as [[]|e|]; simpl; [|by split; [|left]..].
  case_bool_decide; simpl; [|by split; [|left]].
  destruct (channel_send dcBot _ _ _); simpl;
    (split; [done|right; eauto]).
Qed.

(** X15. An edit never makes a new Discord message: the edit handler sends
    nothing, it fetches at most once and edits at most once, what it
    fetched and to the converted text; it logs at most one line. *)
Theorem edit_never_sends_a_new_message (tgMessage : Message) (bridge : Bridge)
    map :
  let calls :=
    calls_of (messageEdit_handler dcBot messageConverter tgMessage bridge map) in
  (length (filter (λ c, is_error_log c = true) calls) ≤ 1)%nat
  ∧ (filter (λ c, is_destination_call c = true) calls = []
     ∨ (∃ id, filter (λ c, is_destination_call c = true) calls
              = [DcFetchMessage (discord_channel bridge) id])
     ∨ (∃ id dcMessage messageObj,
          channel_fetchMessage dcBot (discord_channel bridge) id
          = Resolved dcMessage
          ∧ messageConverter tgMessage = Returned messageObj
          ∧ filter (λ c, is_destination_call c = true) calls
            = [DcFetchMessage (discord_channel bridge) id;
               DcEdit dcMessage (composed messageObj)])).
Proof.
  unfold messageEdit_handler, try_catch, bind, await, channels_get, call,
    logger_error, messageMap_getCorresponding, invoke, ret, throw, calls_of.
  destruct (ready dcBot) as [[]|e|]; simpl; [|split; [lia|by left]..].
  case_bool_decide; simpl; [|split; [lia|by left]].
  destruct (channel_fetchMessage dcBot _ _) as [dcMessage|e|] eqn:Hfetch; simpl.
  - destruct (messageConverter tgMessage) as [messageObj|thrown] eqn:Hconverted;
      simpl.
    + destruct (message_edit dcBot _ _); simpl;
        (split; [lia|right; right; eauto 10]).
    + split; [lia|right; left; eauto].
  - split; [lia|right; left; eauto].
  - split; [lia|right; left; eauto].
Qed.

End MoreHandlers.

(** ** More on the wrapper *)

Section MoreWrapper.

Variable app : Application.
Variable tgBot : TgBot.
Variable toLowerCase : string → string.

(** X16. The wrapper is rejected in one case only: the message is a
    chat-info request and sending the reply throws.  A throw while sending
    the notice is caught, and what the wrapped handler ends with is
    dropped. *)
Theorem wrapper_rejects_only_on_chatinfo_reply (func : Message → Bridge → M unit)
    (msg : Message) map (err : Err) :
  (createMessageHandler app tgBot toLowerCase func msg map).1.1 = Rejected err
  ↔ is_chatinfo tgBot toLowerCase msg = true
    ∧ sendMessage tgBot (chat_id (chat msg))
                  ("chatID: " +:+ pretty (chat_id (chat msg))) None
      = Some err.
Proof.
  unfold createMessageHandler, tgBot_sendMessage, try_catch, not_awaited, call.
  destruct (is_chatinfo tgBot toLowerCase msg).
  - destruct (sendMessage tgBot _ _ None) as [e|]; simpl.
    + split; [intros [= ->]; done|intros [_ [= ->]]; done].
    + split; [done|intros [_ [=]]].
  - destruct (bridgeMap app !! chat_id (chat msg)) as [bridge|].
    + destruct (func msg bridge map) as [[o map1] calls1]. simpl.
      split; [done|intros [[=] _]].
    + destruct (sendMessage tgBot _ _ _); simpl; (split; [done|intros [[=] _]]).
Qed.

End MoreWrapper.

(** ** More on the poller *)

Lemma emitted_app (calls calls' : list PollCall) :
  emitted (calls ++ calls') = emitted calls ++ emitted calls'.
Proof. unfold emitted. apply filter_app. Qed.

Lemma emitted_emit_update (update : Update) :
  emitted (emit_update update) = emit_update update.
Proof. unfold emit_update. repeat case_match; reflexivity. Qed.

Lemma emitted_batch (updates : list Update) :
  emitted (concat (emit_update <$> updates)) = concat (emit_update <$> updates).
Proof.
  induction updates as [|update later IH]; [done|].
  rewrite fmap_cons. cbn [concat].
  by rewrite emitted_app, emitted_emit_update, IH.
Qed.

Lemma fetchUpdates_round_emitted (app : Application) (offset : Z)
    (result : FetchResult) :
  emitted (fetchUpdates_round app offset result).2
  = match result with
    | Fetched updates => concat (emit_update <$> updates)
    | FetchFailed _ => []
    end.
Proof.
  unfold fetchUpdates_round. destruct result as [updates|err].
  - pose proof (forEach_update_calls updates offset) as Hcalls.
    destruct (forEach_update updates offset) as [offset' events].
    simpl in *. subst events.
    rewrite emitted_app. change (GetUpdates offset DEFAULT_TIMEOUT :: ?l)
      with ([GetUpdates offset DEFAULT_TIMEOUT] ++ l).
    rewrite emitted_app, emitted_batch.
    by destruct (debug (settings app)).
  - simpl. rewrite emitted_app. by destruct (debug (settings app)).
Qed.

Lemma arrived_cons (result : FetchResult) (later : list FetchResult) :
  arrived (result :: later)
  = match result with
    | Fetched updates => updates
    | FetchFailed _ => []
    end ++ arrived later.
Proof. reflexivity. Qed.

Section MorePoller.

Variable app : Application.

(** X17. Over any run, the events emitted are those of the updates that
    arrived, in the order of arrival, each update once; a failed fetch
    contributes none. *)
Theorem events_in_arrival_order (results : list FetchResult) (offset : Z) :
  emitted (fetchUpdates app results offset).2
  = concat (emit_update <$> arrived results).
Proof.
  revert offset. induction results as [|result later IH]; intros offset; [done|].
  simpl.
  pose proof (fetchUpdates_round_emitted app offset result) as Hround.
  destruct (fetchUpdates_round app offset result) as [offset' calls].
  specialize (IH offset').
  destruct (fetchUpdates app later offset') as [final calls'].
  simpl in *. rewrite emitted_app, Hround, IH, arrived_cons, fmap_app, concat_app.
  by destruct result.
Qed.

(** X18. After any run the offset is the id of the last update that
    arrived plus one, whatever that update carries and whatever the ids
    before it, and the initial offset when none arrived: an update the
    router drops is consumed like any other. *)
Theorem cursor_follows_last_update (results : list FetchResult) (offset : Z) :
  (fetchUpdates app results offset).1
  = match last (arrived results) with
    | Some newest => update_id newest + 1
    | None => offset
    end.
Proof.
  revert offset. induction results as [|result later IH]; intros offset; [done|].
  simpl.
  pose proof (fetchUpdates_round_offset app offset result) as Hround.
  destruct (fetchUpdates_round app offset result) as [offset' calls].
  specialize (IH offset').
  destruct (fetchUpdates app later offset') as [final calls'].
  simpl in *. rewrite IH, arrived_cons, last_app.
  destruct (last (arrived later)); [done|].
  destruct result as [updates|err]; simpl in *; subst;
    [apply forEach_update_offset|done].
Qed.

(** X19. The debug setting only adds log lines: with it the offsets are
    the same, and the record of the run without its log lines is the record
    of the run with the setting off. *)
Theorem debug_only_adds_log_lines (results : list FetchResult) (offset : Z) :
  (fetchUpdates app results offset).1
  = (fetchUpdates (quiet app) results offset).1
  ∧ filter (λ c, is_log_line c = false) (fetchUpdates app results offset).2
    = (fetchUpdates (quiet app) results offset).2.
Proof.
  revert offset. induction results as [|result later IH]; intros offset; [done|].
  simpl.
  assert ((fetchUpdates_round app offset result).1
          = (fetchUpdates_round (quiet app) offset result).1
          ∧ filter (λ c, is_log_line c = false)
                   (fetchUpdates_round app offset result).2
            = (fetchUpdates_round (quiet app) offset result).2) as [Hoff Hcalls].
  { unfold fetchUpdates_round. simpl.
    destruct result as [updates|err].
    - pose proof (forEach_update_calls updates offset) as Hevents.
      destruct (forEach_update updates offset) as [offset' events].
      simpl in *. split; [done|].
      rewrite filter_app.
      assert (filter (λ c, is_log_line c = false) events = events) as Hkeep.
      { subst events. clear. induction updates as [|update later IH]; [done|].
        rewrite fmap_cons. cbn [concat]. rewrite filter_app, IH. f_equal.
        unfold emit_update. repeat case_match; reflexivity. }
      destruct (debug (settings app)); simpl;
        rewrite filter_cons; simpl; by rewrite Hkeep.
    - split; [done|]. by destruct (debug (settings app)). }
  destruct (fetchUpdates_round app offset result) as [offset1 calls1].
  destruct (fetchUpdates_round (quiet app) offset result) as [offset2 calls2].
  simpl in *. subst offset2 calls2.
  destruct (IH offset1) as [IHoff IHcalls].
  destruct (fetchUpdates app later offset1) as [final1 calls1'].
  destruct (fetchUpdates (quiet app) later offset1) as [final2 calls2'].
  simpl in *. split; [done|]. by rewrite filter_app, IHcalls.
Qed.

(** X20. A run makes one request per round, each with the long-poll
    timeout of 60 seconds, and logs one error per fetch that failed. *)
Theorem one_request_per_round (results : list FetchResult) (offset : Z) :
  timeouts (fetchUpdates app results offset).2
  = replicate (length results) DEFAULT_TIMEOUT
  ∧ length (filter (λ c, is_fetch_error c = true)
                   (fetchUpdates app results offset).2)
    = length (filter (λ result, is_failure result = true) results).
Proof.
  revert offset. induction results as [|result later IH]; intros offset; [done|].
  simpl.
  assert (timeouts (fetchUpdates_round app offset result).2 = [DEFAULT_TIMEOUT]
          ∧ length (filter (λ c, is_fetch_error c = true)
                           (fetchUpdates_round app offset result).2)
            = (if is_failure result then 1 else 0)%nat) as [Htime Herr].
  { unfold fetchUpdates_round.
    destruct result as [updates|err].
    - pose proof (forEach_update_calls updates offset) as Hevents.
      destruct (forEach_update updates offset) as [offset' events].
      simpl in *.
      assert (timeouts events = []
              ∧ filter (λ c, is_fetch_error c = true) events = []) as [Ht He].
      { subst events. clear. induction updates as [|update later [IHt IHe]];
          [done|].
        rewrite fmap_cons. cbn [concat]. unfold timeouts in *.
        rewrite omap_app, filter_app, IHt, IHe.
        unfold emit_update. repeat case_match; done. }
      change (timeouts events = []) with
        (omap (λ c, match c with
                    | GetUpdates _ timeout => Some timeout
                    | _ => None
                    end) events = []) in Ht.
      destruct (debug (settings app)); unfold timeouts; simpl;
        rewrite ?filter_cons; simpl;
        (split; [f_equal; exact Ht|by rewrite He]).
    - destruct (debug (settings app)); done. }
  destruct (fetchUpdates_round app offset result) as [offset' calls].
  destruct (IH offset') as [IHtime IHerr].
  destruct (fetchUpdates app later offset') as [final calls'].
  simpl in *. unfold timeouts in *.
  rewrite omap_app, filter_app, length_app, Htime, IHtime, Herr, IHerr.
  split; [done|].
  rewrite filter_cons. by destruct result.
Qed.

(** X28. In the second version a batch that comes back empty moves the
    offset to what [handleUpdates] returns for the empty batch, plus one,
    wherever the offset was.  So the offset goes back even with a source
    that answers in order: one update with a large enough id and then
    nothing, and this for every [handleUpdates] that returns the largest id
    of a batch and returns at all for the empty one. *)
Theorem second_version_goes_back_on_empty_batch
    (handleUpdates : list Update → Completion Z * list (string * Message))
    (newest : Z) :
  returns_largest_id handleUpdates →
  (handleUpdates []).1 = Returned newest →
  ∃ update,
    source_in_order [Fetched [update]; Fetched []] 0 = true
    ∧ requested (fetchUpdates2 handleUpdates app
                   [Fetched [update]; Fetched []] 0).2
      = [0; update_id update + 1]
    ∧ (fetchUpdates2 handleUpdates app [Fetched [update]; Fetched []] 0).1
      = newest + 1
    ∧ newest + 1 < update_id update + 1.
Proof.
  intros Hlargest Hempty.
  exists (bare_update (Z.max 0 (newest + 1))).
  set (update := bare_update (Z.max 0 (newest + 1))).
  assert (update_id update = Z.max 0 (newest + 1)) as Hid by reflexivity.
  assert ((fetchUpdates2_round handleUpdates app 0 (Fetched [update])).1
          = update_id update + 1) as Hforth.
  { unfold fetchUpdates2_round.
    specialize (Hlargest [update] (update_id update) eq_refl eq_refl).
    destruct (handleUpdates [update]) as [answer emitted].
    simpl in Hlargest. by subst answer. }
  assert (∀ from,
            (fetchUpdates2_round handleUpdates app from (Fetched [])).1
            = newest + 1) as Hback.
  { intros from. unfold fetchUpdates2_round.
    destruct (handleUpdates []) as [answer emitted].
    simpl in Hempty. by subst answer. }
  rewrite !fetchUpdates2_cons, Hforth. cbn [fetchUpdates2 fst snd].
  split; [|split; [|split]].
  - cbn [source_in_order]. unfold answers_from. cbn.
    rewrite !andb_true_r. apply Z.leb_le. lia.
  - by rewrite app_nil_r, requested_app, !fetchUpdates2_round_requests.
  - apply Hback.
  - rewrite Hid. lia.
Qed.

End MorePoller.

(** ** More on backlog clearing and the start of the poller *)

Section MoreBacklog.

Variable getUpdates : nat → FetchResult.

(** X21. Backlog clearing does not return while the source keeps handing
    out updates: against a source that never answers with an empty batch
    (and never fails) no depth of recursion yields a result. *)
Theorem clearing_never_returns_on_busy_source (fuel start : nat) (offset : Z) :
  (∀ n, nonempty_batch getUpdates n) →
  clearInitialUpdates fuel getUpdates start offset = None.
Proof.
  intros Hbusy. revert start offset.
  induction fuel as [|fuel IH]; intros start offset; [done|].
  simpl. destruct (Hbusy start) as (updates & newest & -> & ->). apply IH.
Qed.

Lemma clearInitialUpdates_fails (n start fuel : nat) (offset : Z) (err : Err) :
  (∀ i, (i < n)%nat → nonempty_batch getUpdates (start + i)) →
  getUpdates (start + n) = FetchFailed err →
  (n < fuel)%nat →
  clearInitialUpdates fuel getUpdates start offset = Some (Rejected err).
Proof.
  revert start fuel offset.
  induction n as [|k IH]; intros start fuel offset Hbefore Hfail Hfuel.
  - destruct fuel as [|fuel]; [lia|]. simpl.
    rewrite Nat.add_0_r in Hfail. by rewrite Hfail.
  - destruct fuel as [|fuel]; [lia|]. simpl.
    destruct (Hbefore 0%nat ltac:(lia)) as (updates & newest & Hfirst & Hlast).
    rewrite Nat.add_0_r in Hfirst. rewrite Hfirst, Hlast.
    apply (IH (S start) fuel).
    + intros i Hi.
      replace (S start + i)%nat with (start + S i)%nat by lia.
      apply Hbefore. lia.
    + by replace (S start + k)%nat with (start + S k)%nat by lia.
    + lia.
Qed.

(** X22. A fetch that fails during backlog clearing ends the clearing with
    that failure: there is no retry, and the offset reached is lost. *)
Theorem clearing_failure_propagates (n fuel : nat) (offset : Z) (err : Err) :
  (∀ i, (i < n)%nat → nonempty_batch getUpdates i) →
  getUpdates n = FetchFailed err →
  (n < fuel)%nat →
  clearInitialUpdates fuel getUpdates 0 offset = Some (Rejected err).
Proof.
  intros Hbefore Hfail Hfuel.
  by apply (clearInitialUpdates_fails n 0 fuel offset err).
Qed.

(** The traced clearing agrees with [clearInitialUpdates]. *)
Lemma clearInitialUpdates_traced_outcome (fuel start : nat) (offset : Z) :
  (λ r : Outcome Z * nat * list PollCall, r.1.1)
    <$> clearInitialUpdates_traced fuel getUpdates start offset
  = clearInitialUpdates fuel getUpdates start offset.
Proof.
  revert start offset. induction fuel as [|fuel IH]; intros start offset; [done|].
  simpl. destruct (getUpdates start) as [updates|err]; [|done].
  destruct (last updates) as [newest|]; [|done].
  rewrite <- IH.
  by destruct (clearInitialUpdates_traced fuel getUpdates (S start) _)
    as [[[o used] calls]|].
Qed.

(** What the clearing has asked when it ends at the [n]-th answer after
    [start]: [n + 1] requests, each with timeout 0. *)
Lemma clearInitialUpdates_traced_calls (n start fuel : nat) (offset : Z) :
  (∀ i, (i < n)%nat → nonempty_batch getUpdates (start + i)) →
  (∀ updates newest, getUpdates (start + n) = Fetched updates →
                     last updates = Some newest → False) →
  (n < fuel)%nat →
  ∃ outcome calls,
    clearInitialUpdates_traced fuel getUpdates start offset
    = Some (outcome, S (start + n), calls)
    ∧ timeouts calls = replicate (S n) 0
    ∧ emitted calls = []
    ∧ filter (λ c, is_log_line c = true) calls = [].
Proof.
  revert start fuel offset.
  induction n as [|k IH]; intros start fuel offset Hbefore Hend Hfuel.
  - destruct fuel as [|fuel]; [lia|]. simpl.
    rewrite Nat.add_0_r in *.
    destruct (getUpdates start) as [updates|err] eqn:Hanswer.
    + destruct (last updates) as [newest|] eqn:Hlast.
      * destruct (Hend updates newest eq_refl Hlast).
      * by eexists _, _.
    + by eexists _, _.
  - destruct fuel as [|fuel]; [lia|]. simpl.
    destruct (Hbefore 0%nat ltac:(lia)) as (updates & newest & Hfirst & Hlast).
    rewrite Nat.add_0_r in Hfirst. rewrite Hfirst, Hlast.
    destruct (IH (S start) fuel (update_id newest + 1))
      as (outcome & calls & Hrun & Htime & Hemit & Hlog).
    + intros i Hi.
      replace (S start + i)%nat with (start + S i)%nat by lia.
      apply Hbefore. lia.
    + intros later final.
      replace (S start + k)%nat with (start + S k)%nat by lia. apply Hend.
    + lia.
    + rewrite Hrun.
      replace (S (S start + k)) with (S (start + S k)) by lia.
      eexists _, _. split; [done|]. split; [|split].
      * unfold timeouts in *. simpl. f_equal. exact Htime.
      * unfold emitted in *. rewrite filter_cons. simpl. exact Hemit.
      * rewrite filter_cons. simpl. exact Hlog.
Qed.

End MoreBacklog.

Section Start.

Variable app : Application.
Variable getUpdates : nat → FetchResult.

(** X23. With [skipOldMessages] set and a backlog that runs dry at the
    [n]-th answer, the poller asks [n + 1] times with timeout 0 and emits
    none of what these requests bring: the events of the whole start-up
    are those of the rounds after, which begin with the answer after the
    empty one and at the offset the clearing ended with. *)
Theorem old_updates_are_skipped (n fuel rounds : nat) :
  skipOldMessages (settings app) = true →
  (∀ i, (i < n)%nat → nonempty_batch getUpdates i) →
  getUpdates n = Fetched [] →
  (n < fuel)%nat →
  let steady :=
    fetchUpdates app (getUpdates <$> seq (S n) rounds)
                 (cleared_offset getUpdates 0 n 0) in
  ∃ calls,
    updateGetter app fuel rounds getUpdates = Some (Resolved steady.1, calls)
    ∧ emitted calls = emitted steady.2
    ∧ timeouts calls = replicate (S n) 0 ++ timeouts steady.2.
Proof.
  intros Hskip Hbefore Hempty Hfuel steady. subst steady.
  unfold updateGetter. rewrite Hskip.
  destruct (clearInitialUpdates_traced_calls getUpdates n 0 fuel 0)
    as (outcome & calls & Hrun & Htime & Hemit & Hlog); [done| |done|].
  { intros updates newest. simpl. rewrite Hempty. by intros [= <-]. }
  pose proof (clearInitialUpdates_traced_outcome getUpdates fuel 0 0) as Hagree.
  rewrite Hrun in Hagree. simpl in Hagree.
  rewrite (clearInitialUpdates_run getUpdates n 0 fuel 0) in Hagree by done.
  injection Hagree as ->.
  rewrite Hrun. simpl.
  destruct (fetchUpdates app (getUpdates <$> seq (S n) rounds) _)
    as [final calls'].
  eexists. split; [done|]. simpl. split.
  - rewrite !emitted_app, Hemit. by destruct (debug (settings app)).
  - unfold timeouts in *. rewrite !omap_app, Htime.
    by destruct (debug (settings app)).
Qed.

(** X24. With [skipOldMessages] set, a fetch that fails while the backlog
    is cleared keeps the poller from ever starting: however many rounds
    one waits for, the start-up has ended with that failure, and its
    requests are those of the clearing, with timeout 0; nothing is
    emitted. *)
Theorem failed_clearing_stops_the_poller (n fuel rounds : nat) (err : Err) :
  skipOldMessages (settings app) = true →
  (∀ i, (i < n)%nat → nonempty_batch getUpdates i) →
  getUpdates n = FetchFailed err →
  (n < fuel)%nat →
  ∃ calls,
    updateGetter app fuel rounds getUpdates = Some (Rejected err, calls)
    ∧ emitted calls = []
    ∧ timeouts calls = replicate (S n) 0.
Proof.
  intros Hskip Hbefore Hfail Hfuel.
  unfold updateGetter. rewrite Hskip.
  destruct (clearInitialUpdates_traced_calls getUpdates n 0 fuel 0)
    as (outcome & calls & Hrun & Htime & Hemit & Hlog); [done| |done|].
  { intros updates newest. simpl. by rewrite Hfail. }
  pose proof (clearInitialUpdates_traced_outcome getUpdates fuel 0 0) as Hagree.
  rewrite Hrun in Hagree. simpl in Hagree.
  rewrite (clearInitialUpdates_fails getUpdates n 0 fuel 0 err) in Hagree by done.
  injection Hagree as ->.
  rewrite Hrun. simpl.
  eexists. split; [done|]. split.
  - rewrite emitted_app, Hemit. by destruct (debug (settings app)).
  - unfold timeouts in *. rewrite omap_app, Htime.
    by destruct (debug (settings app)).
Qed.

End Start.

(** ** From an update to Discord *)

Section Delivery.

Variable app : Application.
Variable tgBot : TgBot.
Variable dcBot : DcBot.
Variable messageConverter : Message → Completion MessageObj.
Variable mime_getExtension : option string → option string.
Variable toLowerCase : string → string.

(** X25. Whatever kind of update comes from a chat without a bridge, a
    text, a photo, an edit or any other the router emits, the chat gets the
    notice and nothing else happens, unless the message is a chat-info
    request. *)
Theorem unbridged_update_gets_the_notice (update : Update) (event : string)
    (msg : Message) map :
  emit_update update = [Emit event msg] →
  is_chatinfo tgBot toLowerCase msg = false →
  bridgeMap app !! chat_id (chat msg) = None →
  deliver app tgBot dcBot messageConverter mime_getExtension toLowerCase
          update map
  = (Resolved tt, map, notice_calls tgBot msg).
Proof.
  intros Hemit Hinfo Hbridge.
  assert (In (Emit event msg) (emit_update update)) as Hin
    by (rewrite Hemit; by left).
  apply emitted_events in Hin.
  unfold deliver. rewrite Hemit. simpl in Hin.
  destruct_or?; subst; try done.
  all: unfold emit, setup, wrapFunction, bind, not_awaited, ret; simpl.
  all: rewrite (wrapper_without_bridge app tgBot toLowerCase _ msg map
                  Hinfo Hbridge).
  all: by rewrite !app_nil_r.
Qed.

(** X26. A text from a chat with a bridge goes all the way: when the
    conversion returns and Discord is ready, knows the channel of the
    bridge and accepts the text, the update makes one send to that
    channel, of the converted text, and no reply to Telegram, whatever the
    message map holds: an update that arrives twice is sent twice. *)
Theorem text_update_reaches_discord (update : Update) (msg : Message)
    (body : string) (bridge : Bridge) (messageObj : MessageObj)
    (dcMessage : DcMessage) map :
  message update = Some msg →
  text msg = Some body →
  is_chatinfo tgBot toLowerCase msg = false →
  bridgeMap app !! chat_id (chat msg) = Some bridge →
  messageConverter msg = Returned messageObj →
  ready dcBot = Resolved tt →
  discord_channel bridge ∈ channels dcBot →
  channel_send dcBot (discord_channel bridge) (composed messageObj) None
  = Resolved dcMessage →
  calls_of (deliver app tgBot dcBot messageConverter mime_getExtension
                    toLowerCase update map)
  = [DcSend (discord_channel bridge) (composed messageObj) None].
Proof.
  intros Hmsg Htext Hinfo Hbridge Hconverted Hready Hchan Hsend.
  unfold deliver, emit_update. rewrite Hmsg. simpl. rewrite Htext. simpl.
  unfold emit, setup, wrapFunction, bind, not_awaited, ret, calls_of; simpl.
  rewrite (wrapper_with_bridge app tgBot toLowerCase _ msg bridge map
             Hinfo Hbridge).
  unfold not_awaited, text_handler, try_catch, bind, await, channels_get,
    call, messageMap_insert, invoke, ret.
  rewrite Hconverted, Hready. simpl.
  rewrite bool_decide_eq_true_2 by done. simpl.
  rewrite Hsend. reflexivity.
Qed.

(** X29. Nothing in [setup.js] catches what the conversion of a text
    throws.  The text handler is rejected with it before its [try]; the
    wrapper does not await the handler and ends normally, and so does the
    delivery of the update: the rejection is left to the engine, while
    the program sends nothing to Discord, calls no logger and leaves the
    message map as it was, where a file handler would have logged what was
    thrown. *)
Theorem failed_text_conversion_is_not_caught (update : Update) (msg : Message)
    (body : string) (bridge : Bridge) (err : Err) map :
  message update = Some msg →
  text msg = Some body →
  is_chatinfo tgBot toLowerCase msg = false →
  bridgeMap app !! chat_id (chat msg) = Some bridge →
  messageConverter msg = Thrown err →
  text_handler dcBot messageConverter msg bridge map = (Rejected err, map, [])
  ∧ deliver app tgBot dcBot messageConverter mime_getExtension toLowerCase
            update map
    = (Resolved tt, map, []).
Proof.
  intros Hmsg Htext Hinfo Hbridge Hthrown.
  assert (text_handler dcBot messageConverter msg bridge map
          = (Rejected err, map, [])) as Hhandler.
  { unfold text_handler, bind, invoke, throw. by rewrite Hthrown. }
  split; [exact Hhandler|].
  unfold deliver, emit_update. rewrite Hmsg. simpl. rewrite Htext. simpl.
  unfold emit, setup, wrapFunction, bind, not_awaited, ret; simpl.
  rewrite (wrapper_with_bridge app tgBot toLowerCase _ msg bridge map
             Hinfo Hbridge).
  unfold not_awaited. by rewrite Hhandler.
Qed.

(** X27. An update whose message has none of the seven fields the router
    knows is ignored altogether: no listener runs, so that a chat without
    a bridge gets no notice for it, and an edited message the same update
    may carry is not looked at. *)
Theorem unsupported_message_is_ignored (update : Update) (msg : Message) map :
  message update = Some msg →
  text msg = None → photo msg = None → document msg = None →
  voice msg = None → audio msg = None → video msg = None →
  sticker msg = None →
  deliver app tgBot dcBot messageConverter mime_getExtension toLowerCase
          update map
  = (Resolved tt, map, []).
Proof.
  intros Hmsg Htext Hphoto Hdocument Hvoice Haudio Hvideo Hsticker.
  unfold deliver, emit_update.
  rewrite Hmsg. simpl.
  by rewrite Htext, Hphoto, Hdocument, Hvoice, Haudio, Hvideo, Hsticker.
Qed.

End Delivery.

(** ** Instances *)

(** A converter that throws stops the sender at once; with one that
    returns, the sender waits for a Discord that is not ready yet. *)
Lemma nothing_downloaded_until_discord_ready_witness :
  makeFileSender (Sample.telegram None "foo/bar.ogg" [])
                 Sample.discord Sample.broken_converter (Sample.job false) ∅
  = (Rejected (TypeError "Cannot read property 'first_name' of undefined"),
     ∅, [])
  ∧ makeFileSender (Sample.telegram None "foo/bar.ogg" [])
                   Fixture.sleeping_discord Sample.converter (Sample.job false) ∅
    = (Pending, ∅, []).
Proof.
  split.
  - exact (proj1 (nothing_downloaded_until_discord_ready
                    (Sample.telegram None "foo/bar.ogg" []) Sample.discord
                    Sample.broken_converter (Sample.job false) ∅)
                 _ eq_refl).
  - exact (proj2 (nothing_downloaded_until_discord_ready
                    (Sample.telegram None "foo/bar.ogg" [])
                    Fixture.sleeping_discord
                    Sample.converter (Sample.job false) ∅)
                 ltac:(discriminate)).
Defined.

Lemma unfinished_relay_hangs_silently_witness :
  file_handler Fixture.stalled_telegram Sample.discord Sample.converter
               (λ _ _, ret (Sample.job false)) " Could not send voice"
               (Sample.msg 1 7) Sample.bridge ∅
  = (Pending, ∅,
     [TgGetFile "f1";
      TgHelperGetFileStream {| file_path := Some "foo/bar.ogg" |}]).
Proof.
  exact (proj2 (unfinished_relay_hangs_silently
                  Fixture.stalled_telegram Sample.discord Sample.converter
                  (Sample.job false)
                  {| file_path := Some "foo/bar.ogg" |}
                  {| chunks := []; ends := false |} " Could not send voice"
                  (Sample.msg 1 7) Sample.bridge ∅
                  eq_refl eq_refl ltac:(by eexists) eq_refl
                  (or_introl eq_refl))).
Defined.

Lemma extension_is_suffix_after_last_dot_witness :
  filter (λ c, is_destination_call c = true)
    (calls_of (makeFileSender (Sample.telegram None "music.d/file_5.tar.gz" [])
                 Sample.discord Sample.converter (Sample.job true) ∅))
  = [DcSend "chan" ("**alice**:" +:+ Js.newline)
            (Some {| attachment := []; attachment_name := "voice.gz" |})].
Proof.
  rewrite (extension_is_suffix_after_last_dot
             (Sample.telegram None "music.d/file_5.tar.gz" []) Sample.discord
             Sample.converter (Sample.job true)
             {| file_path := Some "music.d/file_5.tar.gz" |}
             {| chunks := []; ends := true |} "music.d/file_5.tar" "gz" ∅
             eq_refl eq_refl eq_refl eq_refl eq_refl eq_refl eq_refl
             ltac:(vm_compute; left)).
  reflexivity.
Defined.

Lemma path_without_dot_is_appended_whole_witness :
  filter (λ c, is_destination_call c = true)
    (calls_of (makeFileSender (Sample.telegram None "documents/file_1" [])
                 Sample.discord Sample.converter (Sample.job true) ∅))
  = [DcSend "chan" ("**alice**:" +:+ Js.newline)
            (Some {| attachment := [];
                     attachment_name := "voice.documents/file_1" |})].
Proof.
  rewrite (path_without_dot_is_appended_whole
             (Sample.telegram None "documents/file_1" []) Sample.discord
             Sample.converter (Sample.job true)
             {| file_path := Some "documents/file_1" |}
             {| chunks := []; ends := true |} "documents/file_1" ∅
             eq_refl eq_refl eq_refl eq_refl eq_refl eq_refl eq_refl
             ltac:(vm_compute; left)).
  reflexivity.
Defined.

Lemma missing_file_path_stops_the_relay_witness :
  file_handler Fixture.pathless_telegram Sample.discord Sample.converter
               (λ _ _, ret (Sample.job true)) " Could not send audio"
               (Sample.msg 1 7) Sample.bridge ∅
  = (Resolved tt, ∅,
     [TgGetFile "f1";
      LoggerError "[b] Could not send audio" (ArgErr (TypeError "file_path"))]).
Proof.
  exact (proj1 (missing_file_path_stops_the_relay
                  Fixture.pathless_telegram Sample.discord Sample.converter
                  (Sample.job true) " Could not send audio"
                  (Sample.msg 1 7) Sample.bridge ∅ eq_refl eq_refl)
               eq_refl).
Defined.

Lemma relay_logs_only_a_refusal_witness :
  file_handler (Sample.telegram None "foo/bar.ogg" []) Sample.deaf_discord
               Sample.converter (λ _ _, ret (Sample.job false))
               " Could not send voice" (Sample.msg 1 7) Sample.bridge ∅
  = (Resolved tt, ∅,
     [TgGetFile "f1";
      TgHelperGetFileStream {| file_path := Some "foo/bar.ogg" |};
      DcSend "chan" ("**alice**:" +:+ Js.newline)
             (Some {| attachment := []; attachment_name := "voice" |});
      LoggerError "[b] Could not send voice" (ArgErr Sample.boom)]).
Proof.
  exact (relay_logs_only_a_refusal
           (Sample.telegram None "foo/bar.ogg" []) Sample.deaf_discord
           Sample.converter (λ _ _, ret (Sample.job false))
           " Could not send voice" (Sample.msg 1 7) Sample.bridge
           (Sample.job false)
           {| file_path := Some "foo/bar.ogg" |}
           {| chunks := []; ends := true |} ∅
           eq_refl eq_refl eq_refl eq_refl eq_refl eq_refl
           ltac:(vm_compute; left)).
Defined.

Lemma document_without_name_is_sent_as_undefined_witness :
  filter (λ c, is_destination_call c = true)
    (calls_of (document_handler (Sample.telegram None "documents/file_1" [])
                 Sample.discord Sample.converter Fixture.document_msg
                 Sample.bridge ∅))
  = [DcSend "chan" ("**alice**:" +:+ Js.newline)
            (Some {| attachment := []; attachment_name := "undefined" |})].
Proof.
  exact (document_without_name_is_sent_as_undefined
           (Sample.telegram None "documents/file_1" []) Sample.discord
           Sample.converter Fixture.document_msg Sample.bridge
           {| document_file_id := "d1"; file_name := None |}
           {| file_path := Some "documents/file_1" |}
           {| chunks := []; ends := true |} ∅
           eq_refl eq_refl eq_refl eq_refl eq_refl eq_refl
           ltac:(vm_compute; left)).
Defined.

Lemma unknown_mime_type_gives_null_extension_witness :
  filter (λ c, is_destination_call c = true)
    (calls_of (voice_handler (Sample.telegram None "voice/file_2" [])
                 Sample.discord Sample.converter Sample.no_mime
                 Fixture.voice_msg Sample.bridge ∅))
  = [DcSend "chan" ("**alice**:" +:+ Js.newline)
            (Some {| attachment := []; attachment_name := "voice.null" |})].
Proof.
  exact (proj1 (unknown_mime_type_gives_null_extension
                  (Sample.telegram None "voice/file_2" []) Sample.discord
                  Sample.converter Sample.no_mime Fixture.voice_msg
                  Sample.bridge
                  {| file_path := Some "voice/file_2" |}
                  {| chunks := []; ends := true |} ∅
                  eq_refl eq_refl eq_refl ltac:(vm_compute; left))
               {| voice_file_id := "v1"; voice_mime_type := Some "audio/x" |}
               eq_refl eq_refl eq_refl).
Defined.

Lemma audio_and_photo_jobs_witness :
  filter (λ c, is_destination_call c = true)
    (calls_of (audio_handler (Sample.telegram None "music/file_5.mp3" [])
                 Sample.discord Sample.converter Fixture.audio_msg
                 Sample.bridge ∅))
  = [DcSend "chan" ("**alice**:" +:+ Js.newline)
            (Some {| attachment := []; attachment_name := "song.mp3" |})].
Proof.
  exact (proj1 (audio_and_photo_jobs
                  (Sample.telegram None "music/file_5.mp3" []) Sample.discord
                  Sample.converter Fixture.audio_msg Sample.bridge
                  {| file_path := Some "music/file_5.mp3" |}
                  {| chunks := []; ends := true |} ∅
                  eq_refl eq_refl eq_refl ltac:(vm_compute; left))
               {| audio_file_id := "a1"; title := Some "song" |}
               "music/file_5" "mp3" eq_refl eq_refl eq_refl eq_refl).
Defined.

Lemma clearing_never_returns_on_busy_source_witness :
  clearInitialUpdates 100 Fixture.busy_script 0 0 = None.
Proof.
  apply (clearing_never_returns_on_busy_source Fixture.busy_script 100 0 0).
  intros n. by eexists _, _.
Defined.

Lemma clearing_failure_propagates_witness :
  clearInitialUpdates 5 Fixture.failing_script 0 0 = Some (Rejected Sample.boom).
Proof.
  apply (clearing_failure_propagates Fixture.failing_script 1 5 0 Sample.boom).
  - intros [|i] Hi; [by eexists _, _|lia].
  - reflexivity.
  - lia.
Defined.

Lemma old_updates_are_skipped_witness :
  ∃ calls,
    updateGetter (Sample.app false) 5 1 Fixture.restart_script
    = Some (Resolved 6, calls)
    ∧ emitted calls = [Emit "text" (Sample.text_msg 5 7 "hello")]
    ∧ timeouts calls = [0; 0; 60].
Proof.
  apply (old_updates_are_skipped (Sample.app false) Fixture.restart_script
           1 5 1 eq_refl).
  - intros [|i] Hi; [by eexists _, _|lia].
  - reflexivity.
  - lia.
Defined.

Lemma failed_clearing_stops_the_poller_witness :
  ∃ calls,
    updateGetter (Sample.app false) 5 3 Fixture.failing_script
    = Some (Rejected Sample.boom, calls)
    ∧ emitted calls = []
    ∧ timeouts calls = [0; 0].
Proof.
  apply (failed_clearing_stops_the_poller (Sample.app false)
           Fixture.failing_script 1 5 3 Sample.boom eq_refl).
  - intros [|i] Hi; [by eexists _, _|lia].
  - reflexivity.
  - lia.
Defined.

Lemma unbridged_update_gets_the_notice_witness :
  deliver (Sample.app true) (Sample.telegram (Some Sample.bot) "" [])
          Sample.discord
          Sample.converter Sample.no_mime Sample.ascii_toLowerCase
          {| update_id := 9; message := None; channel_post := None;
             edited_message := Some (Sample.text_msg 10 8 "edited") |} ∅
  = (Resolved tt, ∅, [TgSendMessage 8 NOTICE (Some "markdown")]).
Proof.
  exact (unbridged_update_gets_the_notice
           (Sample.app true) (Sample.telegram (Some Sample.bot) "" [])
           Sample.discord
           Sample.converter Sample.no_mime Sample.ascii_toLowerCase
           {| update_id := 9; message := None; channel_post := None;
              edited_message := Some (Sample.text_msg 10 8 "edited") |}
           "messageEdit" (Sample.text_msg 10 8 "edited") ∅
           eq_refl eq_refl eq_refl).
Defined.

Lemma text_update_reaches_discord_witness :
  calls_of (deliver (Sample.app true)
                    (Sample.telegram (Some Sample.bot) "" [])
                    Sample.discord Sample.converter Sample.no_mime
                    Sample.ascii_toLowerCase (Sample.update 5) ∅)
  = [DcSend "chan" "**alice**: hello" None].
Proof.
  exact (text_update_reaches_discord
           (Sample.app true)
           (Sample.telegram (Some Sample.bot) "" [])
           Sample.discord
           Sample.converter Sample.no_mime Sample.ascii_toLowerCase
           (Sample.update 5)
           (Sample.text_msg 5 7 "hello") "hello" Sample.bridge
           (Sample.converted (Sample.text_msg 5 7 "hello"))
           {| dc_id := 555 |} ∅
           eq_refl eq_refl eq_refl eq_refl eq_refl eq_refl
           ltac:(vm_compute; left) eq_refl).
Defined.

Lemma unsupported_message_is_ignored_witness :
  deliver (Sample.app true) (Sample.telegram None "" []) Sample.discord
          Sample.converter Sample.no_mime Sample.ascii_toLowerCase
          {| update_id := 9; message := Some (Sample.msg 10 8);
             channel_post := None;
             edited_message := Some (Sample.text_msg 10 8 "edited") |} ∅
  = (Resolved tt, ∅, []).
Proof.
  exact (unsupported_message_is_ignored
           (Sample.app true) (Sample.telegram None "" []) Sample.discord
           Sample.converter Sample.no_mime Sample.ascii_toLowerCase
           {| update_id := 9; message := Some (Sample.msg 10 8);
              channel_post := None;
              edited_message := Some (Sample.text_msg 10 8 "edited") |}
           (Sample.msg 10 8) ∅
           eq_refl eq_refl eq_refl eq_refl eq_refl eq_refl eq_refl eq_refl).
Defined.

Lemma second_version_goes_back_on_empty_batch_witness :
  ∃ update,
    source_in_order [Fetched [update]; Fetched []] 0 = true
    ∧ requested (fetchUpdates2 Sample.handleUpdates (Sample.app false)
                   [Fetched [update]; Fetched []] 0).2
      = [0; update_id update + 1]
    ∧ (fetchUpdates2 Sample.handleUpdates (Sample.app false)
         [Fetched [update]; Fetched []] 0).1
      = 0 + 1
    ∧ 0 + 1 < update_id update + 1.
Proof.
  exact (second_version_goes_back_on_empty_batch
           (Sample.app false) Sample.handleUpdates 0
           Sample_handleUpdates_returns_largest_id eq_refl).
Defined.

(** The text [hello] from the bridged chat 7, with a converter that
    throws: no call is made. *)
Lemma failed_text_conversion_is_not_caught_witness :
  deliver (Sample.app true) (Sample.telegram (Some Sample.bot) "" [])
          Sample.discord Sample.broken_converter Sample.no_mime
          Sample.ascii_toLowerCase (Sample.update 5) ∅
  = (Resolved tt, ∅, []).
Proof.
  exact (proj2 (failed_text_conversion_is_not_caught
                  (Sample.app true) (Sample.telegram (Some Sample.bot) "" [])
                  Sample.discord Sample.broken_converter Sample.no_mime
                  Sample.ascii_toLowerCase (Sample.update 5)
                  (Sample.text_msg 5 7 "hello") "hello" Sample.bridge
                  (TypeError "Cannot read property 'first_name' of undefined")
                  ∅ eq_refl eq_refl eq_refl eq_refl eq_refl)).
Defined.
